(** * pipes: running external commands and pipelines of commands

    A shallow embedding of [pipes.go] (package [pipes]) and a verification of
    its executors: [Exec], [ExecE], [ExecO], [ExecStdin], [ExecStdout],
    [ExecPipeline], [ExecPipelineE] and [ExecPipelineO].

    The package drives [os/exec]: every [*exec.Cmd] it is handed is an object
    shared with the caller, so the descriptors live in a store indexed by
    address and a pipeline is a list of addresses (the same address may occur
    twice).  What the operating system answers to a call is not decided by the
    package; it is a parameter of the development (a [Host]), and every
    theorem holds for every host.  Each call the package makes on a
    descriptor or on a process handle is logged, with its outcome, in the
    order in which it is made. *)

From Stdlib Require Import Strings.String Strings.Ascii Strings.Byte Lists.List Lia.
From stdpp Require Import base option strings functions list.
Import ListNotations.

Local Open Scope string_scope.

(** ** Data model *)

(** Address of an [exec.Cmd].  Addresses are never nil. *)
Definition ptr := nat.

(** An [io.Reader] value a descriptor can read from (nil is [None]). *)
Inductive Reader :=
| ExtReader (id : nat)      (* a reader supplied by the caller *)
| PipeReader (fd : nat).    (* read end of a pipe made by [StdoutPipe] *)

(** An [io.Writer] value a descriptor can write to (nil is [None]). *)
Inductive Writer :=
| Discard                   (* ioutil.Discard *)
| ExtWriter (id : nat)      (* a writer supplied by the caller *)
| PipeWriter (fd : nat)     (* write end of a pipe made by [StdoutPipe] *)
| Buffer (addr : nat).      (* a bytes.Buffer, by address *)

Inductive Signal := SIGINT | SIGKILL | SIGTERM.

(** A Go [error], by its text; nil is [None]. *)
Definition error := option string.

(** The fields of [exec.Cmd] the package and [os/exec] read or write.
    [Process] is the handle of the started process (its pid);
    [ProcessState] tells whether an exit state has been recorded. *)
Record Cmd := mkCmd {
  Path : string;
  Args : list string;
  Stdin : option Reader;
  Stdout : option Writer;
  Stderr : option Writer;
  Process : option nat;
  ProcessState : bool
}.

Definition with_Stdin (r : option Reader) (c : Cmd) : Cmd :=
  mkCmd (Path c) (Args c) r (Stdout c) (Stderr c) (Process c) (ProcessState c).
Definition with_Stdout (o : option Writer) (c : Cmd) : Cmd :=
  mkCmd (Path c) (Args c) (Stdin c) o (Stderr c) (Process c) (ProcessState c).
Definition with_Stderr (o : option Writer) (c : Cmd) : Cmd :=
  mkCmd (Path c) (Args c) (Stdin c) (Stdout c) o (Process c) (ProcessState c).
Definition with_Process (p : option nat) (c : Cmd) : Cmd :=
  mkCmd (Path c) (Args c) (Stdin c) (Stdout c) (Stderr c) p (ProcessState c).
Definition with_ProcessState (b : bool) (c : Cmd) : Cmd :=
  mkCmd (Path c) (Args c) (Stdin c) (Stdout c) (Stderr c) (Process c) b.

(** Bytes that reached a writer while a call was in progress. *)
Definition Chunk : Type := Writer * list byte.

(** The calls the package makes, each with what it returned. *)
Inductive Call :=
| StdoutPipeCall (c : ptr) (res : string + nat)   (* error text, or the pipe *)
| StartCall (c : ptr) (res : string + nat)        (* error text, or the pid *)
| WaitCall (c : ptr) (res : error)
| SignalCall (pid : nat) (sig : Signal)           (* Process.Signal *)
| ProcessWaitCall (pid : nat).                    (* Process.Wait *)

(** The operating system, as [os/exec] uses it.  Every answer may depend on
    the system's state and changes it; a call that blocks may let output
    through. *)
Record Host := mkHost {
  OS : Type;
  os_Pipe : OS -> OS * (string + nat);
  os_StartProcess : Cmd -> OS -> OS * list Chunk * (string + nat);
  os_Wait : Cmd -> OS -> OS * list Chunk * error;
  os_Signal : nat -> Signal -> OS -> OS * list Chunk;
  os_ProcessWait : nat -> OS -> OS * list Chunk
}.

(** fmt.Errorf("%s %s", a, b) and fmt.Errorf("%s - %s", a, b), as texts. *)
Definition Errorf_s_s (a b : string) : string := a +:+ " " +:+ b.
Definition Errorf_s_dash_s (a b : string) : string := a +:+ " - " +:+ b.

Section Executor.

Context (H : Host).

Record World := mkWorld {
  os : OS H;
  store : ptr -> Cmd;              (* the descriptors, by address *)
  buffers : nat -> list byte;      (* contents of the bytes.Buffers *)
  next_buffer : nat;               (* next free buffer address *)
  trace : list Call                (* calls made so far, oldest first *)
}.

Definition set_os (o : OS H) (w : World) : World :=
  mkWorld o (store w) (buffers w) (next_buffer w) (trace w).

Definition update (c : ptr) (f : Cmd -> Cmd) (w : World) : World :=
  mkWorld (os w) (<[c := f (store w c)]> (store w)) (buffers w)
          (next_buffer w) (trace w).

Definition log (e : Call) (w : World) : World :=
  mkWorld (os w) (store w) (buffers w) (next_buffer w) (trace w ++ [e])%list.

Definition write_chunk (b : nat -> list byte) (k : Chunk) : nat -> list byte :=
  match fst k with
  | Buffer a => <[a := (b a ++ snd k)%list]> b
  | _ => b
  end.

Definition deliver (ks : list Chunk) (w : World) : World :=
  mkWorld (os w) (store w) (fold_left write_chunk ks (buffers w))
          (next_buffer w) (trace w).

(** [var b bytes.Buffer]: a new, empty buffer. *)
Definition new_Buffer (w : World) : World * nat :=
  (mkWorld (os w) (store w) (<[next_buffer w := []]> (buffers w))
           (S (next_buffer w)) (trace w),
   next_buffer w).

(** [b.Bytes()] and [b.String()]. *)
Definition Bytes (w : World) (b : nat) : list byte := buffers w b.
Definition String_ (w : World) (b : nat) : string :=
  string_of_list_byte (buffers w b).

(** ** The methods of [os/exec] the package calls *)

(** [c.StdoutPipe()]: refused when [Stdout] is set or the process has been
    started; otherwise a pipe is asked of the system, its write end becomes
    [c.Stdout] and its read end is returned. *)
Definition StdoutPipe (c : ptr) (w : World) : World * (string + nat) :=
  let cmd := store w c in
  match Stdout cmd with
  | Some _ =>
      let r := inl "exec: Stdout already set" in (log (StdoutPipeCall c r) w, r)
  | None =>
      match Process cmd with
      | Some _ =>
          let r := inl "exec: StdoutPipe after process started" in
          (log (StdoutPipeCall c r) w, r)
      | None =>
          let '(o, r) := os_Pipe H (os w) in
          let w1 := set_os o w in
          match r with
          | inl e => (log (StdoutPipeCall c r) w1, r)
          | inr fd =>
              (log (StdoutPipeCall c r)
                   (update c (with_Stdout (Some (PipeWriter fd))) w1), r)
          end
      end
  end.

(** The reader [StdoutPipe] returned: nil next to an error. *)
Definition pipe_reader (r : string + nat) : option Reader :=
  match r with inl _ => None | inr fd => Some (PipeReader fd) end.

Definition pipe_error (r : string + nat) : error :=
  match r with inl e => Some e | inr _ => None end.

(** [c.Start()]: refused when already started; otherwise the system is asked
    for a process, whose handle becomes [c.Process]. *)
Definition Start (c : ptr) (w : World) : World * error :=
  let cmd := store w c in
  match Process cmd with
  | Some _ =>
      let e := "exec: already started" in (log (StartCall c (inl e)) w, Some e)
  | None =>
      let '(o, ks, r) := os_StartProcess H cmd (os w) in
      let w1 := deliver ks (set_os o w) in
      match r with
      | inl e => (log (StartCall c r) w1, Some e)
      | inr pid => (log (StartCall c r) (update c (with_Process (Some pid)) w1), None)
      end
  end.

(** [c.Wait()]: refused when not started or already waited for; otherwise
    blocks until the process has exited and its output has been copied. *)
Definition Wait (c : ptr) (w : World) : World * error :=
  let cmd := store w c in
  match Process cmd with
  | None =>
      let e := Some "exec: not started" in (log (WaitCall c e) w, e)
  | Some _ =>
      if ProcessState cmd then
        let e := Some "exec: Wait was already called" in (log (WaitCall c e) w, e)
      else
        let '(o, ks, e) := os_Wait H cmd (os w) in
        let w1 := update c (with_ProcessState true) (deliver ks (set_os o w)) in
        (log (WaitCall c e) w1, e)
  end.

(** [p.Signal(sig)] and [p.Wait()] on a process handle; the package ignores
    what they return. *)
Definition Process_Signal (pid : nat) (sig : Signal) (w : World) : World :=
  let '(o, ks) := os_Signal H pid sig (os w) in
  log (SignalCall pid sig) (deliver ks (set_os o w)).

Definition Process_Wait (pid : nat) (w : World) : World :=
  let '(o, ks) := os_ProcessWait H pid (os w) in
  log (ProcessWaitCall pid) (deliver ks (set_os o w)).

(** ** Single commands *)

Definition Exec (cmd : ptr) (stdin : option Reader) (stdout stderr : option Writer)
    (w : World) : World * error :=
  let w := match stdin with
           | Some r => update cmd (with_Stdin (Some r)) w
           | None => w
           end in
  let stdout := default Discard stdout in
  let stderr := default Discard stderr in
  let w := update cmd (with_Stdout (Some stdout)) w in
  let w := update cmd (with_Stderr (Some stderr)) w in
  let '(w, err) := Start cmd w in
  match err with
  | Some e => (w, Some (Errorf_s_s (Path (store w cmd)) e))
  | None =>
      let '(w, err) := Wait cmd w in
      match err with
      | Some e => (w, Some (Errorf_s_s (Path (store w cmd)) e))
      | None => (w, None)
      end
  end.

Definition ExecE (cmd : ptr) (stdin : option Reader) (stdout : option Writer)
    (w : World) : World * error :=
  let '(w, stderr) := new_Buffer w in
  let '(w, err) := Exec cmd stdin stdout (Some (Buffer stderr)) w in
  match err with
  | Some e => (w, Some (Errorf_s_dash_s e (String_ w stderr)))
  | None => (w, None)
  end.

(** The nil slice is the empty list. *)
Definition ExecO (cmd : ptr) (stdin : option Reader) (w : World)
    : World * (list byte * error) :=
  let '(w, stdout) := new_Buffer w in
  let '(w, err) := ExecE cmd stdin (Some (Buffer stdout)) w in
  match err with
  | Some e => (w, ([], Some e))
  | None => (w, (Bytes w stdout, None))
  end.

Definition ExecStdin (cmd : ptr) (stdin : option Reader) (w : World)
    : World * error :=
  ExecE cmd stdin None w.

Definition ExecStdout (cmd : ptr) (stdout : option Writer) (w : World)
    : World * error :=
  ExecE cmd None stdout w.

(** ** Pipelines *)

(** The part of [ExecPipeline]'s frame its deferred functions share: the
    variable [err] and the commands captured by the deferred functions, the
    one deferred last first. *)
Record Frame := mkFrame {
  err : error;
  deferred : list ptr
}.

Definition set_err (e : error) (fr : Frame) : Frame := mkFrame e (deferred fr).
Definition defer (kill : ptr) (fr : Frame) : Frame :=
  mkFrame (err fr) (kill :: deferred fr).

(** A loop either runs to its end ([None]) or executes [return v]
    ([Some v]). *)
Definition Flow : Type := option error.

(** [for i, cmd := range cmds[:last]]: [cmds] is the slice from [i] on, so the
    body runs for every command that has a successor [cmds[i+1]].  Both
    results of [StdoutPipe] are assigned before [err] is tested. *)
Fixpoint connect_loop (stderr : Writer) (cmds : list ptr) (fr : Frame) (w : World)
    : World * Frame * Flow :=
  match cmds with
  | cmd :: rest =>
      match rest with
      | next :: _ =>
          let '(w, r) := StdoutPipe cmd w in
          let w := update next (with_Stdin (pipe_reader r)) w in
          let fr := set_err (pipe_error r) fr in
          match err fr with
          | Some e => (w, fr, Some (Some (Errorf_s_s (Path (store w cmd)) e)))
          | None =>
              let w := update cmd (with_Stderr (Some stderr)) w in
              connect_loop stderr rest fr w
          end
      | [] => (w, fr, None)
      end
  | [] => (w, fr, None)
  end.

(** [for _, cmd := range cmds { start; defer }]. *)
Fixpoint start_loop (cmds : list ptr) (fr : Frame) (w : World)
    : World * Frame * Flow :=
  match cmds with
  | cmd :: rest =>
      let '(w, e) := Start cmd w in
      let fr := set_err e fr in
      match err fr with
      | Some e => (w, fr, Some (Some (Errorf_s_s (Path (store w cmd)) e)))
      | None => start_loop rest (defer cmd fr) w
      end
  | [] => (w, fr, None)
  end.

(** [for _, cmd := range cmds { wait }]. *)
Fixpoint wait_loop (cmds : list ptr) (fr : Frame) (w : World)
    : World * Frame * Flow :=
  match cmds with
  | cmd :: rest =>
      let '(w, e) := Wait cmd w in
      let fr := set_err e fr in
      match err fr with
      | Some e => (w, fr, Some (Some (Errorf_s_s (Path (store w cmd)) e)))
      | None => wait_loop rest fr w
      end
  | [] => (w, fr, None)
  end.

(** One deferred function: it reads [err] and [kill.Process] when it runs. *)
Definition deferred_kill (e : error) (kill : ptr) (w : World) : World :=
  match e with
  | Some _ =>
      match Process (store w kill) with
      | Some pid => Process_Wait pid (Process_Signal pid SIGKILL w)
      | None => w
      end
  | None => w
  end.

(** Leaving the function: the deferred functions run, last deferred first. *)
Definition run_deferred (fr : Frame) (w : World) : World :=
  fold_left (fun w kill => deferred_kill (err fr) kill w) (deferred fr) w.

(** Lines 94-116: the streams are attached, the pipes created. *)
Definition attach (cmds : list ptr) (first : ptr) (stdin : option Reader)
    (stdout stderr : option Writer) (fr : Frame) (w : World)
    : World * Frame * Flow :=
  let w := match stdin with
           | Some r => update first (with_Stdin (Some r)) w
           | None => w
           end in
  let stdout := default Discard stdout in
  let stderr := default Discard stderr in
  let last := List.last cmds first in
  let '(w, fr, ret) := connect_loop stderr cmds fr w in
  match ret with
  | Some v => (w, fr, Some v)
  | None =>
      let w := update last (with_Stdout (Some stdout)) w in
      let w := update last (with_Stderr (Some stderr)) w in
      (w, fr, None)
  end.

(** Lines 118-142: the commands are started, then waited for. *)
Definition run (cmds : list ptr) (fr : Frame) (w : World)
    : World * Frame * Flow :=
  let '(w, fr, ret) := start_loop cmds fr w in
  match ret with
  | Some v => (w, fr, Some v)
  | None =>
      let '(w, fr, ret) := wait_loop cmds fr w in
      match ret with
      | Some v => (w, fr, Some v)
      | None => (w, fr, Some None)
      end
  end.

(** A [return v]: the deferred functions run, then [v] is handed back. *)
Definition leave (st : World * Frame * Flow) : World * error :=
  let '(w, fr, ret) := st in
  (run_deferred fr w, default None ret).

Definition ExecPipeline (cmds : list ptr) (stdin : option Reader)
    (stdout stderr : option Writer) (w : World) : World * error :=
  let fr := mkFrame None [] in
  match cmds with
  | [] => (w, Some "No commands provided to ExecPipeline")
  | first :: _ =>
      let '(w, fr, ret) := attach cmds first stdin stdout stderr fr w in
      match ret with
      | Some v => leave (w, fr, Some v)
      | None => leave (run cmds fr w)
      end
  end.

Definition ExecPipelineE (cmds : list ptr) (stdin : option Reader)
    (stdout : option Writer) (w : World) : World * error :=
  let '(w, stderr) := new_Buffer w in
  let '(w, err) := ExecPipeline cmds stdin stdout (Some (Buffer stderr)) w in
  match err with
  | Some e => (w, Some (Errorf_s_dash_s e (String_ w stderr)))
  | None => (w, None)
  end.

Definition ExecPipelineO (cmds : list ptr) (stdin : option Reader) (w : World)
    : World * (list byte * error) :=
  let '(w, stdout) := new_Buffer w in
  let '(w, err) := ExecPipelineE cmds stdin (Some (Buffer stdout)) w in
  (w, (Bytes w stdout, err)).

End Executor.

Arguments mkWorld {H} _ _ _ _ _.
Arguments os {H} _.
Arguments store {H} _ _.
Arguments buffers {H} _ _.
Arguments next_buffer {H} _.
Arguments trace {H} _.
Arguments update {H} _ _ _.
Arguments Bytes {H} _ _.
Arguments String_ {H} _ _.

Local Close Scope string_scope.

(** ** A host to run the executors on

    Its state counts the pids and pipes handed out.  What a program does is
    told by its path: [missing] cannot be started; [sh] writes [hi] to its
    output and [oops] to its error stream and exits with status 1; [echo]
    writes [hello] to its output and exits with status 0; any other program
    writes nothing and exits with status 0. *)
Module Demo.

Definition to (o : option Writer) (s : string) : list Chunk :=
  match o with
  | Some wr => [(wr, list_byte_of_string s)]
  | None => []
  end.

Definition start_process (c : Cmd) (n : nat) : nat * list Chunk * (string + nat) :=
  if String.eqb (Path c) "missing"
  then (n, [], inl "no such file or directory"%string)
  else (S n, [], inr n).

Definition wait (c : Cmd) (n : nat) : nat * list Chunk * error :=
  if String.eqb (Path c) "sh"
  then (n, to (Stdout c) "hi" ++ to (Stderr c) "oops", Some "exit status 1"%string)
  else if String.eqb (Path c) "echo"
  then (n, to (Stdout c) "hello", None)
  else (n, [], None).

Definition host : Host :=
  mkHost nat
    (fun n => (S n, inr n))
    start_process
    wait
    (fun _ _ n => (n, []))
    (fun _ n => (n, [])).

Definition cmd (path : string) : Cmd := mkCmd path [path] None None None None false.

(** Descriptor [0] is [echo], [1] is [sh], [2] is [missing], the others are
    [true]. *)
Definition paths (c : ptr) : string :=
  match c with
  | 0 => "echo"
  | 1 => "sh"
  | 2 => "missing"
  | _ => "true"
  end%string.

Definition world : World host :=
  mkWorld (H := host) 0 (fun c => cmd (paths c)) (fun _ => []) 0 [].

(** A three-stage pipeline whose middle stage exits with status 1. *)
Definition run3 : World host * error :=
  ExecPipeline host [0; 1; 3] None None None world.

(** A four-stage pipeline whose third stage cannot be started. *)
Definition run4 : World host * error :=
  ExecPipeline host [0; 3; 2; 1] None None None world.

(** A two-stage pipeline whose first stage exits with status 1. *)
Definition run2 : World host * error :=
  ExecPipeline host [1; 3] None None None world.

(** [sh] alone, with its output captured. *)
Definition runO : World host * (list byte * error) := ExecO host 1 None world.

(** [sh] alone, with its error stream captured. *)
Definition runE : World host * error := ExecE host 1 None None world.

(** The pipeline [true | sh], with its output captured. *)
Definition runPO : World host * (list byte * error) :=
  ExecPipelineO host [3; 1] None world.

(** [sh] alone, its streams discarded. *)
Definition runX : World host * error := Exec host 1 None None None world.

(** The pipeline [true | sh], with its error stream captured. *)
Definition runPE : World host * error :=
  ExecPipelineE host [3; 1] None None world.

(** The pipeline [echo | true], which succeeds. *)
Definition runOK : World host * error :=
  ExecPipeline host [0; 3] None None None world.

(** A host that has no pipe left to give, and a world in which the caller has
    given descriptor [3] something to read. *)
Definition no_pipes : Host :=
  mkHost nat
    (fun n => (n, inl "too many open files"%string))
    start_process
    wait
    (fun _ _ n => (n, []))
    (fun _ n => (n, [])).

Definition fed : World no_pipes :=
  mkWorld (H := no_pipes) 0
    (fun c => if decide (c = 3)
              then with_Stdin (Some (ExtReader 9)) (cmd (paths c))
              else cmd (paths c))
    (fun _ => []) 0 [].

Definition runNP : World no_pipes * error :=
  ExecPipeline no_pipes [0; 3] None None None fed.

(** [sh] alone, fed from a reader, and [sh] alone, writing to a writer. *)
Definition runStdin : World host * error :=
  ExecStdin host 1 (Some (ExtReader 5)) world.

Definition runStdout : World host * error :=
  ExecStdout host 1 (Some (ExtWriter 6)) world.

(** A world in which the caller has given descriptor [3] something to read,
    and runs on it: [true] alone, the pipeline [true | echo], and the
    pipeline in which [true] is given twice. *)
Definition given : World host :=
  mkWorld (H := host) 0
    (fun c => if decide (c = 3)
              then with_Stdin (Some (ExtReader 9)) (cmd (paths c))
              else cmd (paths c))
    (fun _ => []) 0 [].

Definition runGivenX : World host * error := Exec host 3 None None None given.

Definition runGiven : World host * error :=
  ExecPipeline host [3; 0] None None None given.

Definition runGivenTwice : World host * error :=
  ExecPipeline host [3; 3] None None None given.

(** The streams of the pipeline in which [echo] is given twice, attached. *)
Definition wiredTwice : World host * Frame * Flow :=
  attach host [0; 0] 0 None None None (mkFrame None []) world.

(** The same descriptor given twice. *)
Definition twice : World host * error :=
  ExecPipeline host [0; 0] None None None world.

(** The streams of a three-stage pipeline, attached. *)
Definition wired : World host * Frame * Flow :=
  attach host [0; 1; 3] 0 None None None (mkFrame None []) world.

End Demo.

(** ** What the log of a call can look like *)

(** Successful [StdoutPipe] and [Start] calls, from the commands paired with
    the pipe or pid obtained; successful [Wait] calls; and the calls of the
    deferred functions that kill: SIGKILL, then [Process.Wait]. *)
Definition piped (ps : list (ptr * nat)) : list Call :=
  map (fun p => StdoutPipeCall p.1 (inr p.2)) ps.

Definition started (ss : list (ptr * nat)) : list Call :=
  map (fun p => StartCall p.1 (inr p.2)) ss.

Definition waited (cs : list ptr) : list Call :=
  map (fun c => WaitCall c None) cs.

Fixpoint killed (pids : list nat) : list Call :=
  match pids with
  | [] => []
  | pid :: rest => SignalCall pid SIGKILL :: ProcessWaitCall pid :: killed rest
  end.

(** The pids of the processes a log shows to have been started. *)
Fixpoint started_pids (evs : list Call) : list nat :=
  match evs with
  | [] => []
  | StartCall _ (inr pid) :: rest => pid :: started_pids rest
  | _ :: rest => started_pids rest
  end.

Definition is_kill (e : Call) : bool :=
  match e with
  | SignalCall _ _ | ProcessWaitCall _ => true
  | _ => false
  end.

Definition is_pipe (e : Call) : bool :=
  match e with
  | StdoutPipeCall _ _ => true
  | _ => false
  end.

Definition is_start_or_wait (e : Call) : bool :=
  match e with
  | StartCall _ _ | WaitCall _ _ => true
  | _ => false
  end.

(** The command [c] writes into the pipe the command [next] reads from. *)
Definition piped_into {H} (w : World H) (c next : ptr) : Prop :=
  exists fd, Stdout (store w c) = Some (PipeWriter fd) /\
             Stdin (store w next) = Some (PipeReader fd).

(** Every command a log shows to have been started is also shown to have been
    waited for with [Wait]. *)
Definition waits_for_every_started (evs : list Call) : Prop :=
  forall c pid, StartCall c (inr pid) ∈ evs -> exists e, WaitCall c e ∈ evs.

(** A command's [Start] or [Wait] failed with the text [msg]. *)
Definition failed (evs : list Call) (c : ptr) (msg : string) : Prop :=
  StartCall c (inl msg) ∈ evs ∨ WaitCall c (Some msg) ∈ evs.

(** The commands a log shows [StdoutPipe], [Start] and [Wait] to have been
    called on, in the order of the calls and whatever the calls returned. *)
Fixpoint piped_cmds (evs : list Call) : list ptr :=
  match evs with
  | [] => []
  | StdoutPipeCall c _ :: rest => c :: piped_cmds rest
  | _ :: rest => piped_cmds rest
  end.

Fixpoint started_cmds (evs : list Call) : list ptr :=
  match evs with
  | [] => []
  | StartCall c _ :: rest => c :: started_cmds rest
  | _ :: rest => started_cmds rest
  end.

Fixpoint waited_cmds (evs : list Call) : list ptr :=
  match evs with
  | [] => []
  | WaitCall c _ :: rest => c :: waited_cmds rest
  | _ :: rest => waited_cmds rest
  end.

Definition is_start (e : Call) : bool :=
  match e with
  | StartCall _ _ => true
  | _ => false
  end.

Definition is_wait (e : Call) : bool :=
  match e with
  | WaitCall _ _ => true
  | _ => false
  end.

(** A call that returned an error. *)
Definition call_failed (e : Call) : bool :=
  match e with
  | StdoutPipeCall _ (inl _) | StartCall _ (inl _) | WaitCall _ (Some _) => true
  | _ => false
  end.

(** The bytes, among those that came through, that were for the buffer [b]. *)
Fixpoint sent_to (b : nat) (ks : list Chunk) : list byte :=
  match ks with
  | [] => []
  | (Buffer a, bytes) :: rest =>
      if decide (a = b) then bytes ++ sent_to b rest else sent_to b rest
  | _ :: rest => sent_to b rest
  end.

(** From [w] to [w'] no descriptor but those of [cs] has changed, and no
    descriptor has changed its program. *)
Definition framed {H} (cs : list ptr) (w w' : World H) : Prop :=
  (forall q, q ∉ cs -> store w' q = store w q) /\
  (forall q, Path (store w' q) = Path (store w q) /\
             Args (store w' q) = Args (store w q)).

(** The four ways a call of [ExecPipeline] on a non-empty pipeline goes, with
    the log of each and the value returned. *)
Inductive Outcome (path : ptr -> string) (cmds : list ptr)
    : list Call -> error -> Prop :=
| PipeFailure k c msg ps :
    cmds !! k = Some c ->
    S k < length cmds ->
    ps.*1 = take k cmds ->
    Outcome path cmds
      (piped ps ++ [StdoutPipeCall c (inl msg)])
      (Some (Errorf_s_s (path c) msg))
| StartFailure k c msg ps ss :
    ps.*1 = removelast cmds ->
    cmds !! k = Some c ->
    ss.*1 = take k cmds ->
    Outcome path cmds
      (piped ps ++ started ss ++ [StartCall c (inl msg)] ++ killed (rev ss.*2))
      (Some (Errorf_s_s (path c) msg))
| WaitFailure k c msg ps ss :
    ps.*1 = removelast cmds ->
    ss.*1 = cmds ->
    cmds !! k = Some c ->
    Outcome path cmds
      (piped ps ++ started ss ++ waited (take k cmds)
         ++ [WaitCall c (Some msg)] ++ killed (rev ss.*2))
      (Some (Errorf_s_s (path c) msg))
| Success ps ss :
    ps.*1 = removelast cmds ->
    ss.*1 = cmds ->
    Outcome path cmds (piped ps ++ started ss ++ waited cmds) None.

(** Two descriptors that differ at most in [Process] and [ProcessState]. *)
Definition same_streams (a b : Cmd) : Prop :=
  Path a = Path b /\ Stdin a = Stdin b /\ Stdout a = Stdout b /\ Stderr a = Stderr b.

(** ** The methods of [os/exec] *)

Section Methods.

Context (H : Host).
Implicit Types (w : World H) (c q : ptr).

Lemma fn_insert_decide {A} (f : ptr -> A) c q (x : A) :
  (<[c := x]> f) q = if decide (c = q) then x else f q.
Proof.
  destruct (decide (c = q)) as [->|Hne].
  - apply fn_lookup_insert.
  - by apply fn_lookup_insert_ne.
Qed.

Lemma store_update c q f w :
  store (update c f w) q = if decide (c = q) then f (store w c) else store w q.
Proof. apply fn_insert_decide. Qed.

(** Unfolds the world after a step and decides which descriptor is read. *)
Ltac look :=
  simpl in *; rewrite ?fn_insert_decide in *;
  repeat case_decide; simplify_eq; simpl in *; try done.

Lemma same_streams_refl a : same_streams a a.
Proof. by repeat split. Qed.

Lemma same_streams_trans (a b d : Cmd) :
  same_streams a b -> same_streams b d -> same_streams a d.
Proof. unfold same_streams. intuition congruence. Qed.

Lemma StdoutPipe_spec c w w' r :
  StdoutPipe H c w = (w', r) ->
  trace w' = trace w ++ [StdoutPipeCall c r] /\
  (forall q, Path (store w' q) = Path (store w q) /\
             Stdin (store w' q) = Stdin (store w q) /\
             Stderr (store w' q) = Stderr (store w q) /\
             Process (store w' q) = Process (store w q) /\
             ProcessState (store w' q) = ProcessState (store w q)) /\
  (forall q, q <> c -> store w' q = store w q) /\
  match r with
  | inl _ => store w' = store w
  | inr fd => Stdout (store w' c) = Some (PipeWriter fd)
  end.
Proof.
  unfold StdoutPipe. intros Hrun.
  destruct (Stdout (store w c)); [by simplify_eq|].
  destruct (Process (store w c)); [by simplify_eq|].
  destruct (os_Pipe H (os w)) as [o [e|fd]]; simplify_eq; simpl; [done|].
  split_and!; [done| | |]; intros; look.
Qed.

Lemma Start_spec c w w' e :
  Start H c w = (w', e) ->
  (exists res, e = pipe_error res /\ trace w' = trace w ++ [StartCall c res] /\
     forall pid, res = inr pid -> Process (store w' c) = Some pid) /\
  (forall q, same_streams (store w q) (store w' q)) /\
  (forall q pid, Process (store w q) = Some pid -> Process (store w' q) = Some pid).
Proof.
  unfold Start. intros Hrun.
  destruct (Process (store w c)) as [pid0|] eqn:Hp.
  { simplify_eq. split; [|split].
    - by eexists (inl _).
    - intros q. apply same_streams_refl.
    - done. }
  destruct (os_StartProcess H (store w c) (os w)) as [[o ks] [msg|pid]]; simplify_eq.
  { split; [|split].
    - by eexists (inl _).
    - intros q. apply same_streams_refl.
    - done. }
  split; [|split].
  - exists (inr pid). split; [done|]. split; [done|]. intros ? [= ->]. look.
  - intros q. unfold same_streams. look.
  - intros q pid' Hq. look.
Qed.

Lemma Wait_spec c w w' e :
  Wait H c w = (w', e) ->
  trace w' = trace w ++ [WaitCall c e] /\
  (forall q, same_streams (store w q) (store w' q)) /\
  (forall q, Process (store w' q) = Process (store w q)).
Proof.
  unfold Wait. intros Hrun.
  destruct (Process (store w c)) as [pid|].
  2: { simplify_eq. split; [done|]. split; [|done]. intros q. apply same_streams_refl. }
  destruct (ProcessState (store w c)).
  { simplify_eq. split; [done|]. split; [|done]. intros q. apply same_streams_refl. }
  destruct (os_Wait H (store w c) (os w)) as [[o ks] e']; simplify_eq.
  split; [done|]. split; intros q; unfold same_streams; look.
Qed.

Lemma Process_Signal_spec pid sig w :
  trace (Process_Signal H pid sig w) = trace w ++ [SignalCall pid sig] /\
  store (Process_Signal H pid sig w) = store w.
Proof. unfold Process_Signal. by destruct (os_Signal H pid sig (os w)). Qed.

Lemma Process_Wait_spec pid w :
  trace (Process_Wait H pid w) = trace w ++ [ProcessWaitCall pid] /\
  store (Process_Wait H pid w) = store w.
Proof. unfold Process_Wait. by destruct (os_ProcessWait H pid (os w)). Qed.

(** ** The loops of [ExecPipeline] *)

Lemma run_deferred_nil fr w : err fr = None -> run_deferred H fr w = w.
Proof.
  unfold run_deferred. intros ->. generalize (deferred fr). intros ks.
  induction ks as [|k ks IH]; simpl; auto.
Qed.

Lemma kill_all msg (ss : list (ptr * nat)) : forall w,
  Forall (fun p => Process (store w p.1) = Some p.2) ss ->
  let w' := fold_left (fun w kill => deferred_kill H (Some msg) kill w) ss.*1 w in
  trace w' = trace w ++ killed ss.*2 /\ store w' = store w.
Proof.
  induction ss as [|[c pid] ss IH]; intros w Hall.
  { simpl. by rewrite app_nil_r. }
  apply Forall_cons_1 in Hall as [Hc Hall]. simpl in Hc.
  rewrite !fmap_cons. cbn [fold_left killed fst snd].
  assert (deferred_kill H (Some msg) c w
          = Process_Wait H pid (Process_Signal H pid SIGKILL w)) as ->.
  { unfold deferred_kill. by rewrite Hc. }
  destruct (Process_Signal_spec pid SIGKILL w) as [Ht1 Hs1].
  destruct (Process_Wait_spec pid (Process_Signal H pid SIGKILL w)) as [Ht2 Hs2].
  destruct (IH (Process_Wait H pid (Process_Signal H pid SIGKILL w))) as [Ht Hs].
  { eapply List.Forall_impl; [|exact Hall]. intros p Hp. simpl. by rewrite Hs2, Hs1. }
  split.
  - rewrite Ht, Ht2, Ht1, <- !app_assoc. done.
  - by rewrite Hs, Hs2, Hs1.
Qed.

Lemma run_deferred_kill fr w msg (ss : list (ptr * nat)) :
  err fr = Some msg ->
  deferred fr = ss.*1 ->
  Forall (fun p => Process (store w p.1) = Some p.2) ss ->
  trace (run_deferred H fr w) = trace w ++ killed ss.*2 /\
  store (run_deferred H fr w) = store w.
Proof.
  unfold run_deferred. intros -> -> Hall. by apply kill_all.
Qed.

Lemma start_loop_spec cs : forall fr w w' fr' ret,
  start_loop H cs fr w = (w', fr', ret) ->
  (forall q, same_streams (store w q) (store w' q)) /\
  (forall q pid, Process (store w q) = Some pid -> Process (store w' q) = Some pid) /\
  exists ss : list (ptr * nat),
    deferred fr' = rev ss.*1 ++ deferred fr /\
    Forall (fun p => Process (store w' p.1) = Some p.2) ss /\
    match ret with
    | None =>
        ss.*1 = cs /\ trace w' = trace w ++ started ss /\
        (err fr = None -> err fr' = None)
    | Some v =>
        exists k c msg,
          cs !! k = Some c /\ ss.*1 = take k cs /\
          trace w' = trace w ++ started ss ++ [StartCall c (inl msg)] /\
          err fr' = Some msg /\
          v = Some (Errorf_s_s (Path (store w c)) msg)
    end.
Proof.
  induction cs as [|c cs IH]; intros fr w w' fr' ret Hrun; simpl in Hrun.
  { simplify_eq. split; [intros; apply same_streams_refl|]. split; [done|].
    exists []. simpl. by rewrite app_nil_r. }
  destruct (Start H c w) as [w1 e] eqn:HS.
  apply Start_spec in HS as [(res & -> & Ht & Hpid) [Hsame Hkeep]].
  destruct res as [msg|pid]; simpl in Hrun.
  - simplify_eq. split; [done|]. split; [done|].
    exists []. split; [done|]. split; [done|].
    exists 0, c, msg. split; [done|]. split; [done|]. split; [done|]. split; [done|].
    by destruct (Hsame c) as [-> _].
  - apply IH in Hrun as (Hsame' & Hkeep' & ss & Hdef & Hall & Hret).
    split; [intros q; eapply same_streams_trans; eauto|].
    split; [eauto|].
    exists ((c, pid) :: ss). rewrite fmap_cons. split.
    { rewrite Hdef. simpl. by rewrite <- app_assoc. }
    split. { constructor; [|done]. simpl. eauto. }
    destruct ret as [v|].
    + destruct Hret as (k & c0 & msg & Hk & Hss & Ht' & Herr & ->).
      exists (S k), c0, msg. rewrite Hss. split; [done|]. split; [done|].
      split. { rewrite Ht', Ht, <- app_assoc. done. }
      split; [done|]. by destruct (Hsame c0) as [-> _].
    + destruct Hret as (Hcs & Ht' & Herr). rewrite Hcs. split; [done|].
      split. { rewrite Ht', Ht, <- app_assoc. done. }
      intros _. by apply Herr.
Qed.

Lemma wait_loop_spec cs : forall fr w w' fr' ret,
  wait_loop H cs fr w = (w', fr', ret) ->
  (forall q, same_streams (store w q) (store w' q)) /\
  (forall q, Process (store w' q) = Process (store w q)) /\
  deferred fr' = deferred fr /\
  match ret with
  | None => trace w' = trace w ++ waited cs /\ (err fr = None -> err fr' = None)
  | Some v =>
      exists k c msg,
        cs !! k = Some c /\
        trace w' = trace w ++ waited (take k cs) ++ [WaitCall c (Some msg)] /\
        err fr' = Some msg /\
        v = Some (Errorf_s_s (Path (store w c)) msg)
  end.
Proof.
  induction cs as [|c cs IH]; intros fr w w' fr' ret Hrun; simpl in Hrun.
  { simplify_eq. split; [intros; apply same_streams_refl|]. split; [done|].
    split; [done|]. simpl. by rewrite app_nil_r. }
  destruct (Wait H c w) as [w1 e] eqn:HW.
  apply Wait_spec in HW as (Ht & Hsame & Hproc).
  destruct e as [msg|]; simpl in Hrun.
  - simplify_eq. split; [done|]. split; [done|]. split; [done|].
    exists 0, c, msg. split; [done|]. split; [done|]. split; [done|].
    by destruct (Hsame c) as [-> _].
  - apply IH in Hrun as (Hsame' & Hproc' & Hdef & Hret).
    split; [intros q; eapply same_streams_trans; eauto|].
    split; [intros q; by rewrite Hproc', Hproc|].
    split; [done|].
    destruct ret as [v|].
    + destruct Hret as (k & c0 & msg & Hk & Ht' & Herr & ->).
      exists (S k), c0, msg. simpl. split; [done|].
      split. { rewrite Ht', Ht, <- app_assoc. done. }
      split; [done|]. by destruct (Hsame c0) as [-> _].
    + destruct Hret as (Ht' & Herr). split.
      { rewrite Ht', Ht, <- app_assoc. done. }
      intros _. by apply Herr.
Qed.

Lemma connect_loop_step stderr c next cs fr w :
  connect_loop H stderr (c :: next :: cs) fr w =
  let '(w1, r) := StdoutPipe H c w in
  let w2 := update next (with_Stdin (pipe_reader r)) w1 in
  let fr1 := set_err (pipe_error r) fr in
  match err fr1 with
  | Some e => (w2, fr1, Some (Some (Errorf_s_s (Path (store w2 c)) e)))
  | None =>
      connect_loop H stderr (next :: cs) fr1
        (update c (with_Stderr (Some stderr)) w2)
  end.
Proof. reflexivity. Qed.

Lemma connect_loop_spec stderr cs : forall fr w w' fr' ret,
  connect_loop H stderr cs fr w = (w', fr', ret) ->
  (forall q, Path (store w' q) = Path (store w q) /\
             Process (store w' q) = Process (store w q)) /\
  deferred fr' = deferred fr /\
  match ret with
  | None =>
      exists ps : list (ptr * nat),
        ps.*1 = removelast cs /\ trace w' = trace w ++ piped ps /\
        (err fr = None -> err fr' = None)
  | Some v =>
      exists k c msg (ps : list (ptr * nat)),
        cs !! k = Some c /\ S k < length cs /\ ps.*1 = take k cs /\
        trace w' = trace w ++ piped ps ++ [StdoutPipeCall c (inl msg)] /\
        err fr' = Some msg /\
        v = Some (Errorf_s_s (Path (store w c)) msg)
  end.
Proof.
  induction cs as [|c cs IH]; intros fr w w' fr' ret Hrun.
  { simpl in Hrun. simplify_eq. split; [done|]. split; [done|].
    exists []. simpl. by rewrite app_nil_r. }
  destruct cs as [|next cs].
  { simpl in Hrun. simplify_eq. split; [done|]. split; [done|].
    exists []. simpl. by rewrite app_nil_r. }
  cbn [connect_loop] in Hrun. cbn [connect_loop] in IH.
  destruct (StdoutPipe H c w) as [w1 r] eqn:HP.
  apply StdoutPipe_spec in HP as (Ht & Hfields & _ & _).
  destruct r as [msg|fd]; cbn [pipe_error pipe_reader set_err err] in Hrun.
  - simplify_eq. split.
    { intros q. destruct (Hfields q) as (? & _ & _ & ? & _). look. }
    split; [done|].
    exists 0, c, msg, []. split; [done|]. split; [simpl; lia|]. split; [done|].
    split; [done|]. split; [done|].
    destruct (Hfields c) as (HPath & _). do 2 f_equal. rewrite <- HPath. look.
  - apply IH in Hrun as (Hfields' & Hdef & Hret).
    assert (forall q, Path (store w' q) = Path (store w q) /\
                      Process (store w' q) = Process (store w q)) as Hpp.
    { intros q. destruct (Hfields' q) as [-> ->].
      destruct (Hfields q) as (? & _ & _ & ? & _). look. }
    split; [done|]. split; [done|].
    destruct ret as [v|].
    + destruct Hret as (k & c0 & msg & ps & Hk & Hlen & Hps & Ht' & Herr & ->).
      exists (S k), c0, msg, ((c, fd) :: ps). rewrite fmap_cons, Hps.
      split; [done|]. split; [simpl in *; lia|]. split; [done|].
      split. { rewrite Ht'. simpl. rewrite Ht, <- app_assoc. done. }
      split; [done|]. do 2 f_equal.
      destruct (Hfields c0) as (HPath & _). rewrite <- HPath. look.
    + destruct Hret as (ps & Hps & Ht' & Herr).
      exists ((c, fd) :: ps). rewrite fmap_cons, Hps. split; [done|].
      split. { rewrite Ht'. simpl. rewrite Ht, <- app_assoc. done. }
      intros _. by apply Herr.
Qed.

(** ** The log of [ExecPipeline] *)

Lemma fmap_rev {A B} (f : A -> B) (l : list A) : f <$> rev l = rev (f <$> l).
Proof.
  induction l as [|a l IH]; [done|].
  simpl. rewrite fmap_app, IH. by rewrite fmap_cons.
Qed.

Lemma run_spec cmds fr w w' fr' ret :
  run H cmds fr w = (w', fr', ret) ->
  err fr = None ->
  deferred fr = [] ->
  (forall q, same_streams (store w q) (store w' q)) /\
  exists (ss : list (ptr * nat)) v,
    ret = Some v /\
    deferred fr' = (rev ss).*1 /\
    Forall (fun p => Process (store w' p.1) = Some p.2) (rev ss) /\
    ((exists k c msg,
        cmds !! k = Some c /\ ss.*1 = take k cmds /\
        trace w' = trace w ++ started ss ++ [StartCall c (inl msg)] /\
        err fr' = Some msg /\ v = Some (Errorf_s_s (Path (store w c)) msg)) \/
     (exists k c msg,
        cmds !! k = Some c /\ ss.*1 = cmds /\
        trace w' = trace w ++ started ss ++ waited (take k cmds)
                     ++ [WaitCall c (Some msg)] /\
        err fr' = Some msg /\ v = Some (Errorf_s_s (Path (store w c)) msg)) \/
     (ss.*1 = cmds /\ trace w' = trace w ++ started ss ++ waited cmds /\
      err fr' = None /\ v = None)).
Proof.
  unfold run. intros Hrun Herr0 Hdef0.
  destruct (start_loop H cmds fr w) as [[w1 fr1] ret1] eqn:HS.
  apply start_loop_spec in HS as (Hsame1 & Hkeep1 & ss & Hdef1 & Hall1 & Hret1).
  rewrite Hdef0, app_nil_r, <- fmap_rev in Hdef1.
  destruct ret1 as [v1|].
  { simplify_eq. split; [done|]. exists ss, v1. split; [done|]. split; [done|].
    split; [by apply Forall_rev|]. left.
    destruct Hret1 as (k & c & msg & ?). by exists k, c, msg. }
  destruct Hret1 as (Hss & Ht1 & Herr1). specialize (Herr1 Herr0).
  destruct (wait_loop H cmds fr1 w1) as [[w2 fr2] ret2] eqn:HW.
  apply wait_loop_spec in HW as (Hsame2 & Hproc2 & Hdef2 & Hret2).
  assert (Forall (fun p => Process (store w2 p.1) = Some p.2) (rev ss)) as Hall2.
  { apply Forall_rev. eapply List.Forall_impl; [|exact Hall1].
    intros p Hp. simpl. by rewrite Hproc2. }
  assert (forall q, same_streams (store w q) (store w2 q)) as Hsame.
  { intros q. eapply same_streams_trans; eauto. }
  destruct ret2 as [v2|].
  - simplify_eq. split; [done|]. exists ss, v2. split; [done|].
    split; [by rewrite Hdef2|]. split; [done|]. right; left.
    destruct Hret2 as (k & c & msg & Hk & Ht2 & Herr2 & ->).
    exists k, c, msg. split; [done|]. split; [done|].
    split. { rewrite Ht2, Ht1, <- !app_assoc. done. }
    split; [done|]. by destruct (Hsame1 c) as [-> _].
  - simplify_eq. split; [done|]. exists ss, None. split; [done|].
    split; [by rewrite Hdef2|]. split; [done|]. right; right.
    destruct Hret2 as (Ht2 & Herr2). split; [done|].
    split. { rewrite Ht2, Ht1, <- !app_assoc. done. }
    split; [by apply Herr2|done].
Qed.

Lemma leave_run_spec cmds fr w w' r :
  leave H (run H cmds fr w) = (w', r) ->
  err fr = None ->
  deferred fr = [] ->
  (forall q, same_streams (store w q) (store w' q)) /\
  exists ss : list (ptr * nat),
    (exists k c msg,
        cmds !! k = Some c /\ ss.*1 = take k cmds /\
        trace w' = trace w ++ started ss ++ [StartCall c (inl msg)]
                     ++ killed (rev ss.*2) /\
        r = Some (Errorf_s_s (Path (store w c)) msg)) \/
    (exists k c msg,
        cmds !! k = Some c /\ ss.*1 = cmds /\
        trace w' = trace w ++ started ss ++ waited (take k cmds)
                     ++ [WaitCall c (Some msg)] ++ killed (rev ss.*2) /\
        r = Some (Errorf_s_s (Path (store w c)) msg)) \/
    (ss.*1 = cmds /\ trace w' = trace w ++ started ss ++ waited cmds /\
     r = None).
Proof.
  intros Hleave Herr0 Hdef0.
  destruct (run H cmds fr w) as [[w1 fr1] ret1] eqn:HR.
  apply run_spec in HR as (Hsame & ss & v & -> & Hdef & Hall & Hcases); [|done..].
  unfold leave in Hleave. simpl in Hleave. simplify_eq.
  destruct Hcases as [(k & c & msg & Hk & Hss & Ht & Herr & ->)
                     |[(k & c & msg & Hk & Hss & Ht & Herr & ->)
                      |(Hss & Ht & Herr & ->)]].
  - destruct (run_deferred_kill fr1 w1 msg (rev ss) Herr Hdef Hall) as [Htk Hsk].
    rewrite Hsk. split; [done|]. exists ss. left. exists k, c, msg.
    split; [done|]. split; [done|]. split; [|done].
    rewrite Htk, Ht, fmap_rev, <- !app_assoc. done.
  - destruct (run_deferred_kill fr1 w1 msg (rev ss) Herr Hdef Hall) as [Htk Hsk].
    rewrite Hsk. split; [done|]. exists ss. right; left. exists k, c, msg.
    split; [done|]. split; [done|]. split; [|done].
    rewrite Htk, Ht, fmap_rev, <- !app_assoc. done.
  - rewrite (run_deferred_nil fr1 w1 Herr). split; [done|]. exists ss.
    right; right. done.
Qed.

Lemma attach_spec cmds first rest stdin stdout stderr fr w w1 fr1 ret :
  attach H cmds first stdin stdout stderr fr w = (w1, fr1, ret) ->
  cmds = first :: rest ->
  err fr = None ->
  (forall q, Path (store w1 q) = Path (store w q) /\
             Process (store w1 q) = Process (store w q)) /\
  deferred fr1 = deferred fr /\
  match ret with
  | None =>
      exists ps : list (ptr * nat),
        ps.*1 = removelast cmds /\ trace w1 = trace w ++ piped ps /\
        err fr1 = None
  | Some v =>
      exists k c msg (ps : list (ptr * nat)),
        cmds !! k = Some c /\ S k < length cmds /\ ps.*1 = take k cmds /\
        trace w1 = trace w ++ piped ps ++ [StdoutPipeCall c (inl msg)] /\
        v = Some (Errorf_s_s (Path (store w c)) msg)
  end.
Proof.
  unfold attach. intros Hrun Hcmds Herr.
  set (w0 := match stdin with
             | Some r => update first (with_Stdin (Some r)) w
             | None => w
             end) in Hrun.
  assert (trace w0 = trace w) as Ht0 by (subst w0; by destruct stdin).
  assert (forall q, Path (store w0 q) = Path (store w q) /\
                    Process (store w0 q) = Process (store w q)) as Hpp0.
  { intros q. subst w0. destruct stdin; [|done]. look. }
  destruct (connect_loop H (default Discard stderr) cmds fr w0)
    as [[w2 fr2] ret2] eqn:HC.
  apply connect_loop_spec in HC as (Hpp & Hdef & Hret).
  destruct ret2 as [v|]; simplify_eq.
  - split. { intros q. destruct (Hpp q) as [-> ->]. apply Hpp0. }
    split; [done|].
    destruct Hret as (k & c & msg & ps & Hk & Hlen & Hps & Ht & _ & ->).
    exists k, c, msg, ps. rewrite Ht, Ht0. destruct (Hpp0 c) as [-> _]. done.
  - split.
    { intros q. destruct (Hpp0 q) as [<- <-]. destruct (Hpp q) as [<- <-]. look. }
    split; [done|].
    destruct Hret as (ps & Hps & Ht & Herr'). exists ps.
    split; [done|]. split; [|by apply Herr'].
    simpl. by rewrite Ht, Ht0.
Qed.

(** Whatever the host answers, a call of [ExecPipeline] on a non-empty
    pipeline goes one of the four ways of [Outcome]. *)
Lemma ExecPipeline_outcome cmds stdin stdout stderr w w' r :
  cmds <> [] ->
  ExecPipeline H cmds stdin stdout stderr w = (w', r) ->
  exists evs, trace w' = trace w ++ evs /\
              Outcome (fun c => Path (store w c)) cmds evs r.
Proof.
  intros Hne Hrun. destruct cmds as [|first rest]; [done|].
  unfold ExecPipeline in Hrun.
  destruct (attach H (first :: rest) first stdin stdout stderr (mkFrame None []) w)
    as [[w1 fr1] ret1] eqn:HA.
  eapply attach_spec in HA as (Hpp & Hdef & Hret); [|done..].
  simpl in Hdef. destruct ret1 as [v|].
  - destruct Hret as (k & c & msg & ps & Hk & Hlen & Hps & Ht & ->).
    unfold leave, run_deferred in Hrun. rewrite Hdef in Hrun. simpl in Hrun.
    simplify_eq. eexists. split; [exact Ht|]. by eapply PipeFailure.
  - destruct Hret as (ps & Hps & Ht & Herr).
    apply leave_run_spec in Hrun as (_ & ss & Hcases); [|done..].
    destruct Hcases as [(k & c & msg & Hk & Hss & Ht' & ->)
                       |[(k & c & msg & Hk & Hss & Ht' & ->)
                        |(Hss & Ht' & ->)]];
      rewrite Ht, <- app_assoc in Ht'; eexists; (split; [exact Ht'|]);
      try destruct (Hpp c) as [-> _].
    + by eapply StartFailure.
    + by eapply WaitFailure.
    + by eapply Success.
Qed.

(** ** A single command *)

Lemma Exec_spec cmd stdin stdout stderr w w' r :
  Exec H cmd stdin stdout stderr w = (w', r) ->
  (Stdin (store w' cmd) = match stdin with
                          | Some rd => Some rd
                          | None => Stdin (store w cmd)
                          end /\
   Stdout (store w' cmd) = Some (default Discard stdout) /\
   Stderr (store w' cmd) = Some (default Discard stderr) /\
   Path (store w' cmd) = Path (store w cmd)) /\
  ((exists msg,
      trace w' = trace w ++ [StartCall cmd (inl msg)] /\
      r = Some (Errorf_s_s (Path (store w cmd)) msg)) \/
   (exists pid e,
      trace w' = trace w ++ [StartCall cmd (inr pid); WaitCall cmd e] /\
      r = Errorf_s_s (Path (store w cmd)) <$> e)).
Proof.
  unfold Exec. intros Hrun.
  set (w0 := update cmd (with_Stderr (Some (default Discard stderr)))
               (update cmd (with_Stdout (Some (default Discard stdout)))
                  (match stdin with
                   | Some rd => update cmd (with_Stdin (Some rd)) w
                   | None => w
                   end))) in Hrun.
  assert (trace w0 = trace w) as Ht0 by (subst w0; by destruct stdin).
  assert (Stdin (store w0 cmd) = match stdin with
                                 | Some rd => Some rd
                                 | None => Stdin (store w cmd)
                                 end /\
          Stdout (store w0 cmd) = Some (default Discard stdout) /\
          Stderr (store w0 cmd) = Some (default Discard stderr) /\
          Path (store w0 cmd) = Path (store w cmd)) as Hw0.
  { subst w0. destruct stdin; look. }
  clearbody w0.
  destruct (Start H cmd w0) as [w1 e1] eqn:HS.
  apply Start_spec in HS as [(res & -> & Ht1 & _) [Hsame1 _]].
  destruct (Hsame1 cmd) as (HP1 & HI1 & HO1 & HE1).
  destruct Hw0 as (HI0 & HO0 & HE0 & HP0).
  destruct res as [msg|pid]; simpl in Hrun.
  { simplify_eq. split.
    - by rewrite <- HI1, <- HO1, <- HE1, <- HP1.
    - left. exists msg. by rewrite Ht1, Ht0, <- HP1, HP0. }
  destruct (Wait H cmd w1) as [w2 e2] eqn:HW.
  apply Wait_spec in HW as (Ht2 & Hsame2 & _).
  destruct (Hsame2 cmd) as (HP2 & HI2 & HO2 & HE2).
  assert (trace w2 = trace w ++ [StartCall cmd (inr pid); WaitCall cmd e2]) as Ht.
  { rewrite Ht2, Ht1, Ht0, <- app_assoc. done. }
  assert (Path (store w2 cmd) = Path (store w cmd)) as HP by congruence.
  split.
  - destruct e2; simplify_eq; by rewrite <- HI2, <- HO2, <- HE2, <- HI1, <- HO1, <- HE1.
  - right. exists pid, e2. destruct e2; simplify_eq; [|done].
    split; [done|]. simpl. by rewrite HP.
Qed.

(** ** The streams after the pipes are made *)

Lemma Stdout_update_Stdin a r w q :
  Stdout (store (update a (with_Stdin r) w) q) = Stdout (store w q).
Proof. rewrite store_update. by case_decide; simplify_eq. Qed.

Lemma Stdout_update_Stderr a x w q :
  Stdout (store (update a (with_Stderr x) w) q) = Stdout (store w q).
Proof. rewrite store_update. by case_decide; simplify_eq. Qed.

Lemma Stdin_update_Stderr a x w q :
  Stdin (store (update a (with_Stderr x) w) q) = Stdin (store w q).
Proof. rewrite store_update. by case_decide; simplify_eq. Qed.

Lemma Stdin_update_Stdout a x w q :
  Stdin (store (update a (with_Stdout x) w) q) = Stdin (store w q).
Proof. rewrite store_update. by case_decide; simplify_eq. Qed.

Lemma Stderr_update_Stdin a r w q :
  Stderr (store (update a (with_Stdin r) w) q) = Stderr (store w q).
Proof. rewrite store_update. by case_decide; simplify_eq. Qed.

Lemma Stderr_update_Stdout a x w q :
  Stderr (store (update a (with_Stdout x) w) q) = Stderr (store w q).
Proof. rewrite store_update. by case_decide; simplify_eq. Qed.

Lemma connect_loop_frame stderr cs : forall fr w w' fr' ret,
  connect_loop H stderr cs fr w = (w', fr', ret) ->
  (forall q, q ∉ cs -> store w' q = store w q) /\
  (forall q, q ∉ tail cs -> Stdin (store w' q) = Stdin (store w q)) /\
  (forall q, q ∉ removelast cs -> Stdout (store w' q) = Stdout (store w q)) /\
  (forall q, Stderr (store w q) = Some stderr -> Stderr (store w' q) = Some stderr) /\
  (ret = None -> forall q, q ∈ removelast cs -> Stderr (store w' q) = Some stderr).
Proof.
  induction cs as [|c cs IH]; intros fr w w' fr' ret Hrun.
  { simpl in Hrun. simplify_eq. split_and!; try done.
    simpl. intros _ q Hq. by apply elem_of_nil in Hq. }
  destruct cs as [|next cs].
  { simpl in Hrun. simplify_eq. split_and!; try done.
    simpl. intros _ q Hq. by apply elem_of_nil in Hq. }
  cbn [connect_loop] in Hrun. cbn [connect_loop] in IH.
  destruct (StdoutPipe H c w) as [w1 r] eqn:HP.
  apply StdoutPipe_spec in HP as (_ & Hfields & Hother & Hres).
  change (removelast (c :: next :: cs)) with (c :: removelast (next :: cs)).
  destruct r as [msg|fd]; cbn [pipe_error pipe_reader set_err err] in Hrun.
  - simplify_eq. split_and!.
    + intros q Hq. apply not_elem_of_cons in Hq as [Hqc Hq].
      apply not_elem_of_cons in Hq as [Hqn _]. rewrite store_update.
      case_decide; [done|]. by rewrite Hres.
    + intros q Hq. simpl in Hq. apply not_elem_of_cons in Hq as [Hqn _].
      rewrite store_update. case_decide; [done|]. by rewrite Hres.
    + intros q _. by rewrite Stdout_update_Stdin, Hres.
    + intros q Hq. by rewrite Stderr_update_Stdin, Hres.
    + done.
  - apply IH in Hrun as (Hframe & Hin & Hout & Herr & Hset).
    split_and!.
    + intros q Hq. apply not_elem_of_cons in Hq as [Hqc Hq].
      rewrite (Hframe q Hq), !store_update.
      apply not_elem_of_cons in Hq as [Hqn _].
      repeat case_decide; try done. by apply Hother.
    + intros q Hq. simpl in Hq. apply not_elem_of_cons in Hq as [Hqn Hq].
      rewrite (Hin q Hq), Stdin_update_Stderr, store_update.
      case_decide; [done|]. by destruct (Hfields q) as (_ & -> & _).
    + intros q Hq. apply not_elem_of_cons in Hq as [Hqc Hq].
      rewrite (Hout q Hq), Stdout_update_Stderr, Stdout_update_Stdin.
      by rewrite Hother.
    + intros q Hq. apply Herr. rewrite store_update.
      case_decide; [done|]. rewrite Stderr_update_Stdin.
      by destruct (Hfields q) as (_ & _ & -> & _).
    + intros Hnone q Hq.
      apply elem_of_cons in Hq as [->|Hq]; [|by apply Hset].
      apply Herr. rewrite !store_update. by case_decide.
Qed.

(** With pairwise distinct descriptors, every command that has a successor
    writes into the pipe its successor reads from. *)
Lemma piped_inj (ps ps' : list (ptr * nat)) : piped ps = piped ps' -> ps = ps'.
Proof.
  revert ps'. induction ps as [|[a b] ps IH]; intros [|[a' b'] ps'] Heq;
    simpl in Heq; simplify_eq; [done|].
  f_equal. by apply IH.
Qed.

Lemma connect_loop_wired stderr cs : forall fr w w' fr' (ps : list (ptr * nat)),
  NoDup cs ->
  connect_loop H stderr cs fr w = (w', fr', None) ->
  ps.*1 = removelast cs ->
  trace w' = trace w ++ piped ps ->
  forall i c next,
    cs !! i = Some c -> cs !! S i = Some next ->
    exists fd, ps !! i = Some (c, fd) /\
               Stdout (store w' c) = Some (PipeWriter fd) /\
               Stdin (store w' next) = Some (PipeReader fd).
Proof.
  induction cs as [|c cs IH]; intros fr w w' fr' ps Hnd Hrun Hps Ht i c0 n0 Hi HSi.
  { done. }
  destruct cs as [|next cs].
  { destruct i; done. }
  rewrite connect_loop_step in Hrun.
  destruct (StdoutPipe H c w) as [w1 r] eqn:HP.
  apply StdoutPipe_spec in HP as (Ht1 & _ & _ & Hres).
  destruct r as [msg|fd]; cbn [pipe_error pipe_reader set_err err] in Hrun; [done|].
  apply NoDup_cons in Hnd as [Hc Hnd].
  set (w3 := update c (with_Stderr (Some stderr))
               (update next (with_Stdin (Some (PipeReader fd))) w1)) in *.
  assert (trace w3 = trace w ++ [StdoutPipeCall c (inr fd)]) as Ht3 by done.
  pose proof Hrun as Hspec. apply connect_loop_spec in Hspec as (_ & _ & ps' & Hps' & Ht' & _).
  assert (ps = (c, fd) :: ps') as ->.
  { rewrite Ht', Ht3, <- app_assoc in Ht. apply app_inv_head in Ht.
    symmetry. by apply piped_inj. }
  destruct i as [|i].
  - simpl in Hi, HSi. simplify_eq. exists fd. split; [done|].
    apply connect_loop_frame in Hrun as (Hframe & Hin & _).
    rewrite (Hframe c0 Hc). apply NoDup_cons in Hnd as [Hn _].
    rewrite (Hin n0 Hn). subst w3. split.
    + by rewrite Stdout_update_Stderr, Stdout_update_Stdin.
    + rewrite Stdin_update_Stderr, store_update. by case_decide.
  - simpl in Hi, HSi.
    destruct (IH _ _ _ _ ps' Hnd Hrun Hps' Ht' i c0 n0 Hi HSi) as (fd' & ? & ? & ?).
    by exists fd'.
Qed.

Lemma elem_of_removelast_or_last (l : list ptr) d c :
  c ∈ l -> c ∈ removelast l \/ c = List.last l d.
Proof.
  intros Hc. destruct l as [|a l]; [by apply elem_of_nil in Hc|].
  rewrite (app_removelast_last (l := a :: l) d) in Hc by done.
  apply elem_of_app in Hc as [Hc|Hc]; [by left|right].
  by apply list_elem_of_singleton in Hc.
Qed.

Lemma attach_streams cmds first rest stdin stdout stderr fr w w1 fr1 ret :
  attach H cmds first stdin stdout stderr fr w = (w1, fr1, ret) ->
  cmds = first :: rest ->
  (first ∉ rest ->
   Stdin (store w1 first) = match stdin with
                            | Some rd => Some rd
                            | None => Stdin (store w first)
                            end) /\
  (ret = None ->
   Stdout (store w1 (List.last cmds first)) = Some (default Discard stdout) /\
   forall c, c ∈ cmds -> Stderr (store w1 c) = Some (default Discard stderr)).
Proof.
  unfold attach. intros Hrun Hcmds.
  set (w0 := match stdin with
             | Some r => update first (with_Stdin (Some r)) w
             | None => w
             end) in Hrun.
  assert (Stdin (store w0 first) = match stdin with
                                   | Some rd => Some rd
                                   | None => Stdin (store w first)
                                   end) as HI0.
  { subst w0. destruct stdin; [|done]. rewrite store_update. by case_decide. }
  clearbody w0.
  destruct (connect_loop H (default Discard stderr) cmds fr w0)
    as [[w2 fr2] ret2] eqn:HC.
  apply connect_loop_frame in HC as (_ & Hin & _ & _ & Hset).
  split.
  - intros Hfirst. rewrite <- HI0, <- (Hin first) by (by subst cmds).
    destruct ret2; simplify_eq; [done|].
    by rewrite Stdin_update_Stderr, Stdin_update_Stdout.
  - intros ->. destruct ret2; simplify_eq. split.
    + rewrite Stdout_update_Stderr, store_update. by case_decide.
    + intros c Hc. rewrite store_update. case_decide; [done|].
      rewrite Stderr_update_Stdout. apply Hset; [done|].
      by destruct (elem_of_removelast_or_last _ first _ Hc).
Qed.

Lemma attach_wired cmds first rest stdin stdout stderr fr w w1 fr1
    (ps : list (ptr * nat)) :
  NoDup cmds ->
  cmds = first :: rest ->
  attach H cmds first stdin stdout stderr fr w = (w1, fr1, None) ->
  ps.*1 = removelast cmds ->
  trace w1 = trace w ++ piped ps ->
  forall i c next,
    cmds !! i = Some c -> cmds !! S i = Some next ->
    exists fd, ps !! i = Some (c, fd) /\
               Stdout (store w1 c) = Some (PipeWriter fd) /\
               Stdin (store w1 next) = Some (PipeReader fd).
Proof.
  unfold attach. intros Hnd Hcmds Hrun Hps Ht i c next Hi HSi.
  set (w0 := match stdin with
             | Some r => update first (with_Stdin (Some r)) w
             | None => w
             end) in Hrun.
  assert (trace w0 = trace w) as Ht0 by (subst w0; by destruct stdin).
  clearbody w0.
  destruct (connect_loop H (default Discard stderr) cmds fr w0)
    as [[w2 fr2] ret2] eqn:HC.
  destruct ret2; simplify_eq. simpl in Ht. rewrite <- Ht0 in Ht.
  destruct (connect_loop_wired _ _ _ _ _ _ ps Hnd HC Hps Ht i c next Hi HSi)
    as (fd & Hfd & HO & HI).
  exists fd. split; [done|].
  rewrite Stdout_update_Stderr, Stdin_update_Stderr, Stdin_update_Stdout.
  split; [|done]. rewrite store_update. case_decide as Hlast; [|done].
  exfalso.
  rewrite (app_removelast_last (l := first :: rest) first) in Hnd by done.
  apply NoDup_app in Hnd as (_ & Hdisj & _).
  apply (Hdisj c).
  - rewrite <- Hps. apply list_elem_of_lookup. exists i.
    by rewrite list_lookup_fmap, Hfd.
  - rewrite Hlast. apply list_elem_of_singleton. done.
Qed.

End Methods.

(** ** Reading a log *)

Lemma piped_elem e ps : e ∈ piped ps -> exists c fd, e = StdoutPipeCall c (inr fd).
Proof.
  induction ps as [|[c fd] ps IH]; simpl; intros He.
  - by apply elem_of_nil in He.
  - apply elem_of_cons in He as [->|He]; eauto.
Qed.

Lemma started_elem e ss :
  e ∈ started ss -> exists c pid, e = StartCall c (inr pid) /\ (c, pid) ∈ ss.
Proof.
  induction ss as [|[c pid] ss IH]; simpl; intros He.
  - by apply elem_of_nil in He.
  - apply elem_of_cons in He as [->|He].
    + exists c, pid. split; [done|]. by left.
    + destruct (IH He) as (c' & pid' & -> & Hin). exists c', pid'.
      split; [done|]. by right.
Qed.

Lemma waited_elem e cs : e ∈ waited cs -> exists c, e = WaitCall c None /\ c ∈ cs.
Proof.
  induction cs as [|c cs IH]; simpl; intros He.
  - by apply elem_of_nil in He.
  - apply elem_of_cons in He as [->|He].
    + exists c. split; [done|]. by left.
    + destruct (IH He) as (c' & -> & Hin). exists c'. split; [done|]. by right.
Qed.

Lemma waited_intro c cs : c ∈ cs -> WaitCall c None ∈ waited cs.
Proof.
  induction cs as [|c' cs IH]; simpl; intros Hc.
  - by apply elem_of_nil in Hc.
  - apply elem_of_cons in Hc as [->|Hc]; [by left|right; auto].
Qed.

Lemma killed_elem e pids :
  e ∈ killed pids -> exists pid, e = SignalCall pid SIGKILL \/ e = ProcessWaitCall pid.
Proof.
  induction pids as [|pid pids IH]; simpl; intros He.
  - by apply elem_of_nil in He.
  - apply elem_of_cons in He as [->|He]; [eauto|].
    apply elem_of_cons in He as [->|He]; eauto.
Qed.

(** Which part of a log a call is found in. *)
Ltac locate_call He :=
  repeat match type of He with
  | _ ∈ _ ++ _ => apply elem_of_app in He as [He|He]
  | _ ∈ piped _ => apply piped_elem in He as (? & ? & ?)
  | _ ∈ started _ => apply started_elem in He as (? & ? & ? & ?)
  | _ ∈ waited _ => apply waited_elem in He as (? & ? & ?)
  | _ ∈ killed _ => apply killed_elem in He as (? & [?|?])
  | _ ∈ [_] => apply list_elem_of_singleton in He
  | _ ∈ [] => apply elem_of_nil in He
  end; simplify_eq.

Lemma started_pids_app l1 l2 :
  started_pids (l1 ++ l2) = started_pids l1 ++ started_pids l2.
Proof.
  induction l1 as [|e l1 IH]; [done|].
  destruct e as [| ? [|] | | |]; simpl; by rewrite ?IH.
Qed.

Lemma started_pids_piped ps : started_pids (piped ps) = [].
Proof. induction ps as [|[c fd] ps IH]; simpl; auto. Qed.

Lemma started_pids_started ss : started_pids (started ss) = ss.*2.
Proof. induction ss as [|[c pid] ss IH]; [done|]. simpl. by rewrite IH. Qed.

Lemma started_pids_waited cs : started_pids (waited cs) = [].
Proof. induction cs as [|c cs IH]; simpl; auto. Qed.

Lemma no_kill_piped ps : Forall (fun e => is_kill e = false) (piped ps).
Proof. induction ps as [|[c fd] ps IH]; simpl; by constructor. Qed.

Lemma no_kill_started ss : Forall (fun e => is_kill e = false) (started ss).
Proof. induction ss as [|[c pid] ss IH]; simpl; by constructor. Qed.

Lemma no_kill_waited cs : Forall (fun e => is_kill e = false) (waited cs).
Proof. induction cs as [|c cs IH]; simpl; by constructor. Qed.


(** ** Cleaning up after a failure *)

(** C1.  The log of a call of [ExecPipeline] is a body in which no process is
    signalled or reaped through its handle, followed by the calls of the
    deferred functions.  When the call returns an error, every process the
    body started, the one started last first, is sent SIGKILL and then waited
    for through its handle, whether or not its own [Wait] had returned nil.
    When the call returns nil, nothing follows the body (no process is
    killed) and every command that was started has been waited for, with
    success, after its start. *)
Theorem C1_cleanup_on_failure H cmds stdin stdout stderr (w w' : World H) r :
  ExecPipeline H cmds stdin stdout stderr w = (w', r) ->
  exists body,
    trace w' = trace w ++ body ++
                 match r with
                 | Some _ => killed (rev (started_pids body))
                 | None => []
                 end /\
    Forall (fun e => is_kill e = false) body /\
    (r = None ->
     forall c pid, StartCall c (inr pid) ∈ body ->
       exists l1 l2, body = l1 ++ StartCall c (inr pid) :: l2 /\
                     WaitCall c None ∈ l2).
Proof.
  intros Hrun. destruct (decide (cmds = [])) as [->|Hne].
  { simpl in Hrun. simplify_eq. exists []. simpl. by rewrite app_nil_r. }
  apply ExecPipeline_outcome in Hrun as (evs & Ht & Hout); [|done].
  destruct Hout as [k c msg ps Hk Hlen Hps
                   |k c msg ps ss Hps Hk Hss
                   |k c msg ps ss Hps Hss Hk
                   |ps ss Hps Hss].
  - exists (piped ps ++ [StdoutPipeCall c (inl msg)]).
    rewrite started_pids_app, started_pids_piped. simpl. rewrite app_nil_r.
    split; [done|]. split; [|done].
    apply Forall_app. split; [apply no_kill_piped|by repeat constructor].
  - exists (piped ps ++ started ss ++ [StartCall c (inl msg)]).
    rewrite !started_pids_app, started_pids_piped, started_pids_started.
    simpl. rewrite app_nil_r. split; [by rewrite Ht, <- !app_assoc|].
    split; [|done].
    rewrite !Forall_app.
    split; [apply no_kill_piped|]. split; [apply no_kill_started|by repeat constructor].
  - exists (piped ps ++ started ss ++ waited (take k cmds) ++ [WaitCall c (Some msg)]).
    rewrite !started_pids_app, started_pids_piped, started_pids_started,
      started_pids_waited.
    simpl. rewrite app_nil_r. split; [by rewrite Ht, <- !app_assoc|].
    split; [|done].
    rewrite !Forall_app.
    split; [apply no_kill_piped|]. split; [apply no_kill_started|].
    split; [apply no_kill_waited|by repeat constructor].
  - exists (piped ps ++ started ss ++ waited cmds).
    split; [by rewrite Ht, app_nil_r|]. split.
    { rewrite !Forall_app.
      split; [apply no_kill_piped|]. split; [apply no_kill_started|apply no_kill_waited]. }
    intros _ c pid He.
    apply elem_of_app in He as [He|He]; [by apply piped_elem in He as (? & ? & [=])|].
    apply elem_of_app in He as [Hs|He]; [|by apply waited_elem in He as (? & [=] & _)].
    destruct (started_elem _ _ Hs) as (c' & pid' & [= <- <-] & Hcp).
    assert (c ∈ cmds) as Hc.
    { rewrite <- Hss. apply list_elem_of_fmap. by exists (c, pid). }
    apply list_elem_of_split in Hs as (s1 & s2 & Hsplit).
    exists (piped ps ++ s1), (s2 ++ waited cmds). split.
    + rewrite Hsplit, <- !app_assoc. done.
    + apply elem_of_app. right. by apply waited_intro.
Qed.

Lemma C1_cleanup_on_failure_witness :
  (exists body,
     trace (Demo.run3.1) = trace Demo.world ++ body ++
                  match Demo.run3.2 with
                  | Some _ => killed (rev (started_pids body))
                  | None => []
                  end /\
     Forall (fun e => is_kill e = false) body /\
     (Demo.run3.2 = None ->
      forall c pid, StartCall c (inr pid) ∈ body ->
        exists l1 l2, body = l1 ++ StartCall c (inr pid) :: l2 /\
                      WaitCall c None ∈ l2)) /\
  (exists body,
     trace (Demo.runOK.1) = trace Demo.world ++ body ++
                  match Demo.runOK.2 with
                  | Some _ => killed (rev (started_pids body))
                  | None => []
                  end /\
     Forall (fun e => is_kill e = false) body /\
     (Demo.runOK.2 = None ->
      forall c pid, StartCall c (inr pid) ∈ body ->
        exists l1 l2, body = l1 ++ StartCall c (inr pid) :: l2 /\
                      WaitCall c None ∈ l2)).
Proof.
  split.
  - apply (C1_cleanup_on_failure Demo.host [0; 1; 3] None None None Demo.world).
    vm_compute. reflexivity.
  - apply (C1_cleanup_on_failure Demo.host [0; 3] None None None Demo.world).
    vm_compute. reflexivity.
Defined.

(** ** Failing to start *)

(** C5.  When the [Start] of a command fails, the log of the call is: the
    pipes, the successful starts of the commands before it in the pipeline,
    in order, the failed start, and then SIGKILL and a wait through the
    handle for each process started, the last one first.  No later command is
    started, and the error returned is the path of the command, a space and
    the text of the error [Start] gave. *)
Theorem C5_start_failure H cmds stdin stdout stderr (w w' : World H) r evs c msg :
  ExecPipeline H cmds stdin stdout stderr w = (w', r) ->
  trace w' = trace w ++ evs ->
  StartCall c (inl msg) ∈ evs ->
  exists k (ps ss : list (ptr * nat)),
    cmds !! k = Some c /\
    ps.*1 = removelast cmds /\
    ss.*1 = take k cmds /\
    evs = piped ps ++ started ss ++ [StartCall c (inl msg)] ++ killed (rev ss.*2) /\
    r = Some (Path (store w c) +:+ " " +:+ msg)%string.
Proof.
  intros Hrun Ht He. destruct (decide (cmds = [])) as [->|Hne].
  { simpl in Hrun. simplify_eq. rewrite <- (app_nil_r (trace w')) in Ht at 1.
    apply app_inv_head in Ht as <-. by apply elem_of_nil in He. }
  apply ExecPipeline_outcome in Hrun as (evs' & Ht' & Hout); [|done].
  rewrite Ht' in Ht. apply app_inv_head in Ht as ->.
  destruct Hout as [k c0 msg0 ps Hk Hlen Hps
                   |k c0 msg0 ps ss Hps Hk Hss
                   |k c0 msg0 ps ss Hps Hss Hk
                   |ps ss Hps Hss]; locate_call He.
  by exists k, ps, ss.
Qed.

Lemma C5_start_failure_witness :
  exists k (ps ss : list (ptr * nat)),
    [0; 3; 2; 1] !! k = Some 2 /\
    ps.*1 = removelast [0; 3; 2; 1] /\
    ss.*1 = take k [0; 3; 2; 1] /\
    [StdoutPipeCall 0 (inr 0); StdoutPipeCall 3 (inr 1); StdoutPipeCall 2 (inr 2);
     StartCall 0 (inr 3); StartCall 3 (inr 4);
     StartCall 2 (inl "no such file or directory"%string);
     SignalCall 4 SIGKILL; ProcessWaitCall 4;
     SignalCall 3 SIGKILL; ProcessWaitCall 3]
    = piped ps ++ started ss
        ++ [StartCall 2 (inl "no such file or directory"%string)]
        ++ killed (rev ss.*2) /\
    Demo.run4.2 = Some (Path (store Demo.world 2) +:+ " "
                          +:+ "no such file or directory")%string.
Proof.
  apply (C5_start_failure Demo.host [0; 3; 2; 1] None None None
           Demo.world Demo.run4.1).
  - vm_compute. reflexivity.
  - vm_compute. reflexivity.
  - vm_compute. do 5 right. left.
Defined.

(** ** Failing to exit with success *)

(** C2, as stated, fails: when the first of two started commands exits with
    status 1 the second one is never waited for with [Wait]. *)
Lemma C2_counterexample : ~ waits_for_every_started (trace Demo.run2.1).
Proof.
  intros Hall. destruct (Hall 3 2) as [e He].
  - vm_compute. do 2 right. left.
  - apply list_elem_of_In in He. vm_compute in He. intuition congruence.
Qed.

(** C2, amended.  When the [Wait] of a command fails, every command of the
    pipeline had been started, the commands before it had been waited for in
    order and with success, and no [Wait] is called after the failed one:
    the call returns the path of the command, a space and the text of the
    error [Wait] gave, after the deferred functions have sent SIGKILL to every
    process of the pipeline and waited for it through its handle, the last
    started first. *)
Theorem C2_first_wait_failure H cmds stdin stdout stderr (w w' : World H) r evs c msg :
  ExecPipeline H cmds stdin stdout stderr w = (w', r) ->
  trace w' = trace w ++ evs ->
  WaitCall c (Some msg) ∈ evs ->
  exists k (ps ss : list (ptr * nat)),
    cmds !! k = Some c /\
    ps.*1 = removelast cmds /\
    ss.*1 = cmds /\
    evs = piped ps ++ started ss ++ waited (take k cmds)
            ++ [WaitCall c (Some msg)] ++ killed (rev ss.*2) /\
    r = Some (Path (store w c) +:+ " " +:+ msg)%string.
Proof.
  intros Hrun Ht He. destruct (decide (cmds = [])) as [->|Hne].
  { simpl in Hrun. simplify_eq. rewrite <- (app_nil_r (trace w')) in Ht at 1.
    apply app_inv_head in Ht as <-. by apply elem_of_nil in He. }
  apply ExecPipeline_outcome in Hrun as (evs' & Ht' & Hout); [|done].
  rewrite Ht' in Ht. apply app_inv_head in Ht as ->.
  destruct Hout as [k c0 msg0 ps Hk Hlen Hps
                   |k c0 msg0 ps ss Hps Hk Hss
                   |k c0 msg0 ps ss Hps Hss Hk
                   |ps ss Hps Hss]; locate_call He.
  by exists k, ps, ss.
Qed.

Lemma C2_first_wait_failure_witness :
  exists k (ps ss : list (ptr * nat)),
    [1; 3] !! k = Some 1 /\
    ps.*1 = removelast [1; 3] /\
    ss.*1 = [1; 3] /\
    [StdoutPipeCall 1 (inr 0); StartCall 1 (inr 1); StartCall 3 (inr 2);
     WaitCall 1 (Some "exit status 1"%string);
     SignalCall 2 SIGKILL; ProcessWaitCall 2;
     SignalCall 1 SIGKILL; ProcessWaitCall 1]
    = piped ps ++ started ss ++ waited (take k [1; 3])
        ++ [WaitCall 1 (Some "exit status 1"%string)] ++ killed (rev ss.*2) /\
    Demo.run2.2 = Some (Path (store Demo.world 1) +:+ " " +:+ "exit status 1")%string.
Proof.
  apply (C2_first_wait_failure Demo.host [1; 3] None None None
           Demo.world Demo.run2.1).
  - vm_compute. reflexivity.
  - vm_compute. reflexivity.
  - vm_compute. do 3 right. left.
Defined.

(** ** The texts of the errors *)

Lemma ExecE_unfold H cmd stdin stdout (w : World H) :
  ExecE H cmd stdin stdout w =
  let b := next_buffer w in
  let run := Exec H cmd stdin stdout (Some (Buffer b)) (new_Buffer H w).1 in
  (run.1, (fun e => Errorf_s_dash_s e (String_ run.1 b)) <$> run.2).
Proof.
  unfold ExecE. simpl.
  destruct (Exec H cmd stdin stdout _ _) as [w1 [e|]]; done.
Qed.

Lemma ExecPipelineE_unfold H cmds stdin stdout (w : World H) :
  ExecPipelineE H cmds stdin stdout w =
  let b := next_buffer w in
  let run := ExecPipeline H cmds stdin stdout (Some (Buffer b)) (new_Buffer H w).1 in
  (run.1, (fun e => Errorf_s_dash_s e (String_ run.1 b)) <$> run.2).
Proof.
  unfold ExecPipelineE. simpl.
  destruct (ExecPipeline H cmds stdin stdout _ _) as [w1 [e|]]; done.
Qed.

Lemma ExecPipeline_failed H cmds stdin stdout stderr (w w' : World H) r evs c msg :
  ExecPipeline H cmds stdin stdout stderr w = (w', r) ->
  trace w' = trace w ++ evs ->
  failed evs c msg ->
  r = Some (Errorf_s_s (Path (store w c)) msg).
Proof.
  intros Hrun Ht He. destruct (decide (cmds = [])) as [->|Hne].
  { simpl in Hrun. simplify_eq. rewrite <- (app_nil_r (trace w')) in Ht at 1.
    apply app_inv_head in Ht as <-. destruct He as [He|He]; by apply elem_of_nil in He. }
  apply ExecPipeline_outcome in Hrun as (evs' & Ht' & Hout); [|done].
  rewrite Ht' in Ht. apply app_inv_head in Ht as ->.
  destruct Hout as [k c0 msg0 ps Hk Hlen Hps
                   |k c0 msg0 ps ss Hps Hk Hss
                   |k c0 msg0 ps ss Hps Hss Hk
                   |ps ss Hps Hss]; destruct He as [He|He]; locate_call He; done.
Qed.

(** C7.  A failed [Start] or [Wait] makes [Exec] and [ExecPipeline] return
    the path of the command that failed, a space and the text of the error;
    [ExecE] and [ExecPipelineE] return nil when the executor under them does,
    and otherwise its error text, [" - "] and the text in their buffer.  The
    other variants return the error of [ExecE] or [ExecPipelineE] as it is. *)
Theorem C7_error_text H :
  (forall cmd stdin stdout stderr (w w' : World H) r evs c msg,
     Exec H cmd stdin stdout stderr w = (w', r) ->
     trace w' = trace w ++ evs ->
     failed evs c msg ->
     r = Some (Path (store w c) +:+ " " +:+ msg)%string) /\
  (forall cmds stdin stdout stderr (w w' : World H) r evs c msg,
     ExecPipeline H cmds stdin stdout stderr w = (w', r) ->
     trace w' = trace w ++ evs ->
     failed evs c msg ->
     r = Some (Path (store w c) +:+ " " +:+ msg)%string) /\
  (forall cmd stdin stdout (w w' : World H) r,
     ExecE H cmd stdin stdout w = (w', r) ->
     exists u,
       Exec H cmd stdin stdout (Some (Buffer (next_buffer w))) (new_Buffer H w).1
         = (w', u) /\
       r = (fun e => e +:+ " - " +:+ String_ w' (next_buffer w))%string <$> u) /\
  (forall cmds stdin stdout (w w' : World H) r,
     ExecPipelineE H cmds stdin stdout w = (w', r) ->
     exists u,
       ExecPipeline H cmds stdin stdout (Some (Buffer (next_buffer w)))
         (new_Buffer H w).1 = (w', u) /\
       r = (fun e => e +:+ " - " +:+ String_ w' (next_buffer w))%string <$> u) /\
  (forall cmd stdin stdout (w : World H),
     ExecStdin H cmd stdin w = ExecE H cmd stdin None w /\
     ExecStdout H cmd stdout w = ExecE H cmd None stdout w /\
     (ExecO H cmd stdin w).2.2
       = (ExecE H cmd stdin (Some (Buffer (next_buffer w))) (new_Buffer H w).1).2) /\
  (forall cmds stdin (w : World H),
     (ExecPipelineO H cmds stdin w).2.2
       = (ExecPipelineE H cmds stdin (Some (Buffer (next_buffer w)))
            (new_Buffer H w).1).2).
Proof.
  split_and!.
  6: { intros cmds stdin w. unfold ExecPipelineO. simpl.
       by destruct (ExecPipelineE H cmds stdin _ _). }
  5: { intros cmd stdin stdout w. split; [done|]. split; [done|].
       unfold ExecO. simpl. by destruct (ExecE H cmd stdin _ _) as [w1 [e|]]. }
  - intros cmd stdin stdout stderr w w' r evs c msg Hrun Ht He.
    apply Exec_spec in Hrun as [_ [(msg' & Ht' & ->)|(pid & e & Ht' & ->)]];
      rewrite Ht' in Ht; apply app_inv_head in Ht as <-;
      destruct He as [He|He]; apply list_elem_of_In in He; simpl in He;
      intuition simplify_eq; done.
  - intros. by eapply ExecPipeline_failed.
  - intros cmd stdin stdout w w' r Hrun. rewrite ExecE_unfold in Hrun.
    simpl in Hrun. destruct (Exec H cmd stdin stdout _ _) as [w1 u].
    simpl in Hrun. simplify_eq. by exists u.
  - intros cmds stdin stdout w w' r Hrun. rewrite ExecPipelineE_unfold in Hrun.
    simpl in Hrun. destruct (ExecPipeline H cmds stdin stdout _ _) as [w1 u].
    simpl in Hrun. simplify_eq. by exists u.
Qed.

Lemma C7_error_text_witness :
  Demo.runX.2 = Some ("sh exit status 1")%string /\
  Demo.run2.2 = Some ("sh exit status 1")%string /\
  (exists u,
     Exec Demo.host 1 None None (Some (Buffer 0)) (new_Buffer Demo.host Demo.world).1
       = (Demo.runE.1, u) /\
     Demo.runE.2 = (fun e => e +:+ " - " +:+ String_ Demo.runE.1 0)%string <$> u) /\
  (exists u,
     ExecPipeline Demo.host [3; 1] None None (Some (Buffer 0))
       (new_Buffer Demo.host Demo.world).1 = (Demo.runPE.1, u) /\
     Demo.runPE.2 = (fun e => e +:+ " - " +:+ String_ Demo.runPE.1 0)%string <$> u).
Proof.
  destruct (C7_error_text Demo.host) as (Hexec & Hpipe & HexecE & HpipeE & _).
  split_and!.
  - apply (Hexec 1 None None None Demo.world Demo.runX.1 Demo.runX.2
             (trace Demo.runX.1) 1 "exit status 1"%string).
    + vm_compute. reflexivity.
    + vm_compute. reflexivity.
    + right. vm_compute. right. left.
  - apply (Hpipe [1; 3] None None None Demo.world Demo.run2.1 Demo.run2.2
             (trace Demo.run2.1) 1 "exit status 1"%string).
    + vm_compute. reflexivity.
    + vm_compute. reflexivity.
    + right. vm_compute. do 3 right. left.
  - apply (HexecE 1 None None Demo.world Demo.runE.1 Demo.runE.2).
    vm_compute. reflexivity.
  - apply (HpipeE [3; 1] None None Demo.world Demo.runPE.1 Demo.runPE.2).
    vm_compute. reflexivity.
Defined.

Lemma string_of_list_byte_empty (l : list byte) :
  string_of_list_byte l = ""%string <-> l = [].
Proof. split; [by destruct l|by intros ->]. Qed.

(** C8.  The error text of a failing [ExecE] or [ExecPipelineE] ends with the
    text captured in its buffer, which is not empty when the buffer is not;
    when the buffer is empty nothing follows the [" - "] that is put after
    the text of the underlying error. *)
Theorem C8_captured_text H :
  (forall cmd stdin stdout (w w' : World H) text,
     ExecE H cmd stdin stdout w = (w', Some text) ->
     exists u,
       Exec H cmd stdin stdout (Some (Buffer (next_buffer w))) (new_Buffer H w).1
         = (w', Some u) /\
       text = (u +:+ " - " +:+ String_ w' (next_buffer w))%string /\
       (Bytes w' (next_buffer w) <> [] -> String_ w' (next_buffer w) <> ""%string) /\
       (Bytes w' (next_buffer w) = [] -> text = (u +:+ " - ")%string)) /\
  (forall cmds stdin stdout (w w' : World H) text,
     ExecPipelineE H cmds stdin stdout w = (w', Some text) ->
     exists u,
       ExecPipeline H cmds stdin stdout (Some (Buffer (next_buffer w)))
         (new_Buffer H w).1 = (w', Some u) /\
       text = (u +:+ " - " +:+ String_ w' (next_buffer w))%string /\
       (Bytes w' (next_buffer w) <> [] -> String_ w' (next_buffer w) <> ""%string) /\
       (Bytes w' (next_buffer w) = [] -> text = (u +:+ " - ")%string)).
Proof.
  assert (forall (w' : World H) b u text,
            text = Errorf_s_dash_s u (String_ w' b) ->
            text = (u +:+ " - " +:+ String_ w' b)%string /\
            (Bytes w' b <> [] -> String_ w' b <> ""%string) /\
            (Bytes w' b = [] -> text = (u +:+ " - ")%string)) as Htext.
  { intros w' b u text ->. split; [done|]. split.
    - intros Hne Hs. by apply string_of_list_byte_empty in Hs.
    - unfold Errorf_s_dash_s, String_, Bytes. by intros ->. }
  split.
  - intros cmd stdin stdout w w' text Hrun. rewrite ExecE_unfold in Hrun.
    simpl in Hrun. destruct (Exec H cmd stdin stdout _ _) as [w1 [u|]];
      simpl in Hrun; simplify_eq.
    exists u. split; [done|]. by apply Htext.
  - intros cmds stdin stdout w w' text Hrun. rewrite ExecPipelineE_unfold in Hrun.
    simpl in Hrun. destruct (ExecPipeline H cmds stdin stdout _ _) as [w1 [u|]];
      simpl in Hrun; simplify_eq.
    exists u. split; [done|]. by apply Htext.
Qed.

Lemma C8_captured_text_witness :
  (exists u,
     Exec Demo.host 1 None None (Some (Buffer 0)) (new_Buffer Demo.host Demo.world).1
       = (Demo.runE.1, Some u) /\
     "sh exit status 1 - oops"%string = (u +:+ " - " +:+ String_ Demo.runE.1 0)%string /\
     (Bytes Demo.runE.1 0 <> [] -> String_ Demo.runE.1 0 <> ""%string) /\
     (Bytes Demo.runE.1 0 = [] -> "sh exit status 1 - oops"%string = (u +:+ " - ")%string)) /\
  (exists u,
     ExecPipeline Demo.host [3; 1] None None (Some (Buffer 0))
       (new_Buffer Demo.host Demo.world).1 = (Demo.runPE.1, Some u) /\
     "sh exit status 1 - oops"%string = (u +:+ " - " +:+ String_ Demo.runPE.1 0)%string /\
     (Bytes Demo.runPE.1 0 <> [] -> String_ Demo.runPE.1 0 <> ""%string) /\
     (Bytes Demo.runPE.1 0 = [] -> "sh exit status 1 - oops"%string = (u +:+ " - ")%string)).
Proof.
  destruct (C8_captured_text Demo.host) as [HexecE HpipeE].
  split.
  - apply (HexecE 1 None None Demo.world Demo.runE.1 "sh exit status 1 - oops"%string).
    vm_compute. reflexivity.
  - apply (HpipeE [3; 1] None None Demo.world Demo.runPE.1
             "sh exit status 1 - oops"%string).
    vm_compute. reflexivity.
Defined.

(** ** The bytes captured *)

(** C3, as stated, fails for [ExecO]: [sh] writes [hi] to its output and
    exits with status 1; the buffer holds [hi] and the slice returned is
    nil. *)
Lemma C3_counterexample :
  Demo.runO.2.1 <> Bytes Demo.runO.1 (next_buffer Demo.world) /\
  Demo.runO.2.2 <> None.
Proof. vm_compute. split; discriminate. Qed.

(** C3, amended.  [ExecPipelineO] returns the bytes of its buffer whatever
    the error; [ExecO] returns them when the error is nil, and the nil slice
    when it is not. *)
Theorem C3_captured_output H cmd cmds stdin (w : World H) :
  (ExecPipelineO H cmds stdin w).2.1
    = Bytes (ExecPipelineO H cmds stdin w).1 (next_buffer w) /\
  match (ExecO H cmd stdin w).2.2 with
  | None => (ExecO H cmd stdin w).2.1 = Bytes (ExecO H cmd stdin w).1 (next_buffer w)
  | Some _ => (ExecO H cmd stdin w).2.1 = []
  end.
Proof.
  split.
  - unfold ExecPipelineO. simpl.
    by destruct (ExecPipelineE H cmds stdin _ _) as [w1 e].
  - unfold ExecO. simpl.
    by destruct (ExecE H cmd stdin _ _) as [w1 [e|]].
Qed.

(** The pipeline [true | sh] fails, and [ExecPipelineO] hands back what [sh]
    wrote next to the error. *)
Example pipeline_output_with_error :
  Demo.runPO.2
  = (list_byte_of_string "hi", Some "sh exit status 1 - oops"%string).
Proof. vm_compute. reflexivity. Qed.

(** ** The empty pipeline *)

(** C6.  On no commands [ExecPipeline] returns its error and the world it
    was given: no call is made and no descriptor is written.  The variants
    only make their buffers, which stay empty; the system, the descriptors
    and the log are as before. *)
Theorem C6_empty_pipeline H stdin stdout stderr (w : World H) :
  ExecPipeline H [] stdin stdout stderr w
    = (w, Some "No commands provided to ExecPipeline"%string) /\
  (let run := ExecPipelineE H [] stdin stdout w in
   run.2 = Some "No commands provided to ExecPipeline - "%string /\
   os run.1 = os w /\ store run.1 = store w /\ trace run.1 = trace w) /\
  (let run := ExecPipelineO H [] stdin w in
   run.2 = ([], Some "No commands provided to ExecPipeline - "%string) /\
   os run.1 = os w /\ store run.1 = store w /\ trace run.1 = trace w).
Proof.
  split; [done|]. split.
  - unfold ExecPipelineE, String_. simpl. by rewrite fn_lookup_insert.
  - unfold ExecPipelineO, ExecPipelineE, String_, Bytes. simpl.
    rewrite fn_lookup_insert. simpl.
    rewrite fn_lookup_insert_ne by lia. by rewrite fn_lookup_insert.
Qed.

(** ** A pipeline of one command *)

(** C9.  [ExecPipeline] on the one command [cmd] returns what [Exec] returns
    on it and leaves the descriptors as [Exec] leaves them; it makes the same
    [Start] and [Wait] calls and creates no pipe.  The two leave the same
    world, unless [Wait] fails: the deferred function of [ExecPipeline] then
    also signals the process that has exited and waits for it through its
    handle. *)
Theorem C9_one_stage H cmd stdin stdout stderr (w : World H) :
  let one := Exec H cmd stdin stdout stderr w in
  let pipe := ExecPipeline H [cmd] stdin stdout stderr w in
  pipe.2 = one.2 /\
  store pipe.1 = store one.1 /\
  List.filter is_start_or_wait (trace pipe.1)
    = List.filter is_start_or_wait (trace one.1) /\
  List.filter is_pipe (trace pipe.1) = List.filter is_pipe (trace w) /\
  (pipe.1 = one.1 \/
   exists pid msg,
     trace one.1 = trace w ++ [StartCall cmd (inr pid); WaitCall cmd (Some msg)] /\
     trace pipe.1 = trace one.1 ++ [SignalCall pid SIGKILL; ProcessWaitCall pid]) /\
  (one.2 = None -> pipe.1 = one.1).
Proof.
  intros one pipe.
  destruct (Exec H cmd stdin stdout stderr w) as [we re] eqn:HE.
  pose proof HE as Hlog. apply Exec_spec in Hlog as [_ Hlog].
  subst one pipe. revert HE.
  unfold Exec, ExecPipeline, attach, run, leave. simpl.
  set (w0 := update cmd (with_Stderr (Some (default Discard stderr)))
               (update cmd (with_Stdout (Some (default Discard stdout)))
                  (match stdin with
                   | Some r => update cmd (with_Stdin (Some r)) w
                   | None => w
                   end))).
  assert (List.filter is_pipe (trace we) = List.filter is_pipe (trace w)) as Hnp.
  { destruct Hlog as [(msg & -> & _)|(pid' & e & -> & _)];
      rewrite List.filter_app; simpl; by rewrite app_nil_r. }
  destruct (Start H cmd w0) as [w1 [msg1|]] eqn:HS; simpl.
  { intros [= <- <-]. unfold run_deferred. simpl. split_and!; auto. }
  destruct (Wait H cmd w1) as [w2 [msg2|]] eqn:HW; simpl.
  2: { intros [= <- <-]. unfold run_deferred. simpl. split_and!; auto. }
  intros [= <- <-]. unfold run_deferred. simpl. unfold deferred_kill.
  apply Start_spec in HS as [(res & Hres & HtS & Hpid) _].
  destruct res as [|pid]; [done|]. specialize (Hpid pid eq_refl).
  apply Wait_spec in HW as (HtW & _ & Hproc). rewrite Hproc, Hpid.
  assert (trace w2 = trace w ++ [StartCall cmd (inr pid); WaitCall cmd (Some msg2)])
    as Hone.
  { rewrite HtW, HtS, <- app_assoc. subst w0. by destruct stdin. }
  destruct (Process_Signal_spec H pid SIGKILL w2) as [Ht1 Hs1].
  destruct (Process_Wait_spec H pid (Process_Signal H pid SIGKILL w2)) as [Ht2 Hs2].
  assert (trace (Process_Wait H pid (Process_Signal H pid SIGKILL w2))
          = trace w2 ++ [SignalCall pid SIGKILL; ProcessWaitCall pid]) as Ht.
  { rewrite Ht2, Ht1, <- app_assoc. done. }
  split_and!.
  - done.
  - by rewrite Hs2, Hs1.
  - rewrite Ht, List.filter_app. simpl. by rewrite app_nil_r.
  - rewrite Ht, List.filter_app, Hnp. simpl. by rewrite app_nil_r.
  - right. by exists pid, msg2.
  - done.
Qed.

(** ** The streams of a pipeline *)

Lemma ExecPipeline_attach H cmds first rest stdin stdout stderr (w w' : World H) r :
  cmds = first :: rest ->
  ExecPipeline H cmds stdin stdout stderr w = (w', r) ->
  exists w1 fr1 ret,
    attach H cmds first stdin stdout stderr (mkFrame None []) w = (w1, fr1, ret) /\
    (forall q, same_streams (store w1 q) (store w' q)) /\
    match ret with
    | Some v => w' = w1 /\ r = v
    | None => leave H (run H cmds fr1 w1) = (w', r)
    end.
Proof.
  intros -> Hrun. unfold ExecPipeline in Hrun.
  destruct (attach H (first :: rest) first stdin stdout stderr (mkFrame None []) w)
    as [[w1 fr1] ret] eqn:HA.
  exists w1, fr1, ret. split; [done|].
  pose proof HA as Hspec. eapply attach_spec in Hspec as (_ & Hdef & Hret); [|done..].
  destruct ret as [v|].
  - unfold leave, run_deferred in Hrun. rewrite Hdef in Hrun. simpl in Hrun.
    simplify_eq. split; [|done]. intros q. apply same_streams_refl.
  - destruct Hret as (ps & _ & _ & Herr).
    split; [|done]. by apply leave_run_spec in Hrun as [Hsame _].
Qed.

(** C10, as stated, fails for a pipeline in which the first descriptor is
    given again: with a nil [stdin], the reader the caller had put in its
    [Stdin] is replaced by the read end of a pipe. *)
Lemma C10_counterexample :
  Stdin (store Demo.given 3) = Some (ExtReader 9) /\
  Stdin (store Demo.runGivenTwice.1 3) = Some (PipeReader 0) /\
  Stdin (store Demo.runGivenTwice.1 3) <> Stdin (store Demo.given 3).
Proof. vm_compute. split; [done|]. split; [done|]. discriminate. Qed.

(** C10, amended.  With a nil [stdin], [Exec] leaves [cmd.Stdin] as it was and
    [ExecPipeline] leaves the [Stdin] of the first command as it was, provided
    that command is not repeated further down the pipeline.  [Stdout] and
    [Stderr] are set to what the caller gave, or to [Discard] when it gave
    nil: by [Exec] always, and by [ExecPipeline], for the [Stdout] of the
    last command and the [Stderr] of every command, when no pipe fails to be
    made. *)
Theorem C10_nil_input H :
  (forall cmd stdout stderr (w w' : World H) r,
     Exec H cmd None stdout stderr w = (w', r) ->
     Stdin (store w' cmd) = Stdin (store w cmd) /\
     Stdout (store w' cmd) = Some (default Discard stdout) /\
     Stderr (store w' cmd) = Some (default Discard stderr)) /\
  (forall first rest stdout stderr (w w' : World H) r,
     ExecPipeline H (first :: rest) None stdout stderr w = (w', r) ->
     first ∉ rest ->
     Stdin (store w' first) = Stdin (store w first)) /\
  (forall first rest stdin stdout stderr (w w' : World H) r evs,
     ExecPipeline H (first :: rest) stdin stdout stderr w = (w', r) ->
     trace w' = trace w ++ evs ->
     (forall c msg, StdoutPipeCall c (inl msg) ∉ evs) ->
     Stdout (store w' (List.last (first :: rest) first))
       = Some (default Discard stdout) /\
     forall c, c ∈ first :: rest -> Stderr (store w' c) = Some (default Discard stderr)).
Proof.
  split_and!.
  - intros cmd stdout stderr w w' r Hrun.
    by apply Exec_spec in Hrun as [(? & ? & ? & _) _].
  - intros first rest stdout stderr w w' r Hrun Hfirst.
    eapply ExecPipeline_attach in Hrun as (w1 & fr1 & ret & HA & Hsame & _); [|done].
    eapply attach_streams in HA as [HI _]; [|done].
    destruct (Hsame first) as (_ & <- & _). by apply HI.
  - intros first rest stdin stdout stderr w w' r evs Hrun Ht Hnofail.
    eapply ExecPipeline_attach in Hrun as (w1 & fr1 & ret & HA & Hsame & Hret); [|done].
    destruct ret as [v|].
    { exfalso. destruct Hret as [-> ->].
      eapply attach_spec in HA as (_ & _ & k & c & msg & ps & _ & _ & _ & Ht' & _);
        [|done..].
      rewrite Ht' in Ht. apply app_inv_head in Ht as <-.
      apply (Hnofail c msg). apply elem_of_app. right. by left. }
    eapply attach_streams in HA as [_ HOE]; [|done].
    destruct (HOE eq_refl) as [HO HE]. split.
    + by destruct (Hsame (List.last (first :: rest) first)) as (_ & _ & <- & _).
    + intros c Hc. destruct (Hsame c) as (_ & _ & _ & <-). by apply HE.
Qed.

Lemma C10_nil_input_witness :
  (Stdin (store Demo.runX.1 1) = Stdin (store Demo.world 1) /\
   Stdout (store Demo.runX.1 1) = Some Discard /\
   Stderr (store Demo.runX.1 1) = Some Discard) /\
  Stdin (store Demo.run3.1 0) = Stdin (store Demo.world 0) /\
  (Stdout (store Demo.run3.1 (List.last [0; 1; 3] 0)) = Some Discard /\
   forall c, c ∈ [0; 1; 3] -> Stderr (store Demo.run3.1 c) = Some Discard) /\
  (Stdin (store Demo.runGivenX.1 3) = Some (ExtReader 9) /\
   Stdout (store Demo.runGivenX.1 3) = Some Discard /\
   Stderr (store Demo.runGivenX.1 3) = Some Discard) /\
  Stdin (store Demo.runGiven.1 3) = Some (ExtReader 9).
Proof.
  destruct (C10_nil_input Demo.host) as (Hexec & Hfirst & Hsinks).
  split; [|split; [|split; [|split]]].
  - apply (Hexec 1 None None Demo.world Demo.runX.1 Demo.runX.2).
    vm_compute. reflexivity.
  - apply (Hfirst 0 [1; 3] None None Demo.world Demo.run3.1 Demo.run3.2).
    + vm_compute. reflexivity.
    + intros Hin. apply list_elem_of_In in Hin. simpl in Hin. intuition lia.
  - apply (Hsinks 0 [1; 3] None None None Demo.world Demo.run3.1 Demo.run3.2
             (trace Demo.run3.1)).
    + vm_compute. reflexivity.
    + vm_compute. reflexivity.
    + intros c msg Hin. apply list_elem_of_In in Hin. vm_compute in Hin.
      intuition congruence.
  - apply (Hexec 3 None None Demo.given Demo.runGivenX.1 Demo.runGivenX.2).
    vm_compute. reflexivity.
  - apply (Hfirst 3 [0] None None Demo.given Demo.runGiven.1 Demo.runGiven.2).
    + vm_compute. reflexivity.
    + intros Hin. apply list_elem_of_In in Hin. simpl in Hin. intuition lia.
Defined.

(** C4, as stated, fails for a pipeline in which a descriptor is given twice:
    no pipe fails to be made, yet the first command does not write into the
    pipe the second reads from, since its [Stdout] is set to [stdout] as that
    of the last command. *)
Lemma C4_counterexample :
  Demo.wiredTwice.2 = None /\
  Stdout (store Demo.wiredTwice.1.1 0) = Some Discard /\
  ~ piped_into Demo.wiredTwice.1.1 0 0.
Proof.
  split; [by vm_compute|]. split; [by vm_compute|].
  intros (fd & Hout & _). vm_compute in Hout. discriminate.
Qed.

(** C4, amended.  For a pipeline of pairwise distinct commands, the streams are
    attached before anything is started.  Either a pipe could not be made:
    the log shows the pipes made so far and the failed [StdoutPipe], no
    [Start], and [ExecPipeline] returns the path of that command, a space
    and the text of the error.  Or the log shows one pipe for each command
    but the last, in order, and then: every command with a successor writes
    to the pipe its successor reads from; the first command reads from
    [stdin] when one is given and from what it read from before otherwise;
    the last command writes to [stdout] (or [Discard]); every command has
    [stderr] (or [Discard]) as its error stream; [ExecPipeline] goes on from
    that world to start the commands, and never touches a stream again. *)
Theorem C4_wiring H cmds first rest stdin stdout stderr (w w1 : World H) fr1 ret :
  cmds = first :: rest ->
  NoDup cmds ->
  attach H cmds first stdin stdout stderr (mkFrame None []) w = (w1, fr1, ret) ->
  match ret with
  | Some v =>
      (exists k c msg (ps : list (ptr * nat)),
         cmds !! k = Some c /\ S k < length cmds /\ ps.*1 = take k cmds /\
         trace w1 = trace w ++ piped ps ++ [StdoutPipeCall c (inl msg)] /\
         v = Some (Path (store w c) +:+ " " +:+ msg)%string) /\
      ExecPipeline H cmds stdin stdout stderr w = (w1, v)
  | None =>
      (exists ps : list (ptr * nat),
         ps.*1 = removelast cmds /\
         trace w1 = trace w ++ piped ps /\
         forall i c next,
           cmds !! i = Some c -> cmds !! S i = Some next ->
           exists fd, ps !! i = Some (c, fd) /\
                      Stdout (store w1 c) = Some (PipeWriter fd) /\
                      Stdin (store w1 next) = Some (PipeReader fd)) /\
      Stdin (store w1 first) = match stdin with
                               | Some rd => Some rd
                               | None => Stdin (store w first)
                               end /\
      Stdout (store w1 (List.last cmds first)) = Some (default Discard stdout) /\
      (forall c, c ∈ cmds -> Stderr (store w1 c) = Some (default Discard stderr)) /\
      ExecPipeline H cmds stdin stdout stderr w = leave H (run H cmds fr1 w1) /\
      (forall q, same_streams (store w1 q)
                   (store (ExecPipeline H cmds stdin stdout stderr w).1 q))
  end.
Proof.
  intros Hcmds Hnd HA.
  pose proof HA as Hspec. eapply attach_spec in Hspec as (_ & Hdef & Hret); [|done..].
  pose proof HA as Hstreams. eapply attach_streams in Hstreams as [HI HOE]; [|done].
  assert (ExecPipeline H cmds stdin stdout stderr w
          = match ret with
            | Some v => leave H (w1, fr1, Some v)
            | None => leave H (run H cmds fr1 w1)
            end) as Hpipe.
  { subst cmds. unfold ExecPipeline. by rewrite HA. }
  destruct ret as [v|].
  - split; [done|]. rewrite Hpipe. unfold leave, run_deferred.
    by rewrite Hdef.
  - destruct Hret as (ps & Hps & Ht & _). destruct (HOE eq_refl) as [HO HE].
    split_and!; try done.
    + exists ps. split; [done|]. split; [done|]. by eapply attach_wired.
    + apply HI. subst cmds. by apply NoDup_cons in Hnd as [? _].
    + destruct (ExecPipeline H cmds stdin stdout stderr w) as [w' r] eqn:Hrun.
      eapply ExecPipeline_attach in Hrun as (w1' & fr1' & ret' & HA' & Hsame & _);
        [|done].
      rewrite HA in HA'. by simplify_eq.
Qed.

Lemma C4_wiring_witness :
  match Demo.wired.2 with
  | Some v =>
      (exists k c msg (ps : list (ptr * nat)),
         [0; 1; 3] !! k = Some c /\ S k < length [0; 1; 3] /\
         ps.*1 = take k [0; 1; 3] /\
         trace Demo.wired.1.1
           = trace Demo.world ++ piped ps ++ [StdoutPipeCall c (inl msg)] /\
         v = Some (Path (store Demo.world c) +:+ " " +:+ msg)%string) /\
      ExecPipeline Demo.host [0; 1; 3] None None None Demo.world
        = (Demo.wired.1.1, v)
  | None =>
      (exists ps : list (ptr * nat),
         ps.*1 = removelast [0; 1; 3] /\
         trace Demo.wired.1.1 = trace Demo.world ++ piped ps /\
         forall i c next,
           [0; 1; 3] !! i = Some c -> [0; 1; 3] !! S i = Some next ->
           exists fd, ps !! i = Some (c, fd) /\
                      Stdout (store Demo.wired.1.1 c) = Some (PipeWriter fd) /\
                      Stdin (store Demo.wired.1.1 next) = Some (PipeReader fd)) /\
      Stdin (store Demo.wired.1.1 0) = Stdin (store Demo.world 0) /\
      Stdout (store Demo.wired.1.1 (List.last [0; 1; 3] 0)) = Some Discard /\
      (forall c, c ∈ [0; 1; 3] -> Stderr (store Demo.wired.1.1 c) = Some Discard) /\
      ExecPipeline Demo.host [0; 1; 3] None None None Demo.world
        = leave Demo.host (run Demo.host [0; 1; 3] Demo.wired.1.2 Demo.wired.1.1) /\
      (forall q, same_streams (store Demo.wired.1.1 q)
                   (store (ExecPipeline Demo.host [0; 1; 3] None None None
                             Demo.world).1 q))
  end.
Proof.
  apply (C4_wiring Demo.host [0; 1; 3] 0 [1; 3] None None None Demo.world).
  - reflexivity.
  - repeat (apply NoDup_cons; split;
      [intros Hin; apply list_elem_of_In in Hin; simpl in Hin; intuition lia|]).
    apply NoDup_nil_2.
  - vm_compute. reflexivity.
Defined.

(** A descriptor given twice is its own successor: it reads from its own
    pipe, has its pipe replaced by [stdout], and cannot be started twice. *)
Example same_descriptor_twice :
  Stdin (store Demo.twice.1 0) = Some (PipeReader 0) /\
  Stdout (store Demo.twice.1 0) = Some Discard /\
  Demo.twice.2 = Some "echo exec: already started"%string.
Proof. vm_compute. done. Qed.

(** * More on the executors *)

(** ** The descriptors a call leaves alone *)

(** Membership in a list that is written out. *)
Ltac in_list :=
  let q := fresh "q" in let Hq := fresh "Hq" in
  intros q Hq; rewrite ?elem_of_cons, ?elem_of_nil in Hq;
  rewrite ?elem_of_cons, ?elem_of_nil; tauto.

Section Frames.

Context (H : Host).
Implicit Types (w : World H) (c q : ptr).

Lemma framed_refl cs w : framed cs w w.
Proof. by split. Qed.

Lemma framed_trans cs w w1 w2 : framed cs w w1 -> framed cs w1 w2 -> framed cs w w2.
Proof.
  intros [Ho1 Hp1] [Ho2 Hp2]. split.
  - intros q Hq. by rewrite Ho2, Ho1.
  - intros q. destruct (Hp1 q) as [<- <-]. apply Hp2.
Qed.

Lemma framed_mono cs cs' w w' :
  (forall q, q ∈ cs -> q ∈ cs') -> framed cs w w' -> framed cs' w w'.
Proof. intros Hsub [Ho Hp]. split; [|done]. intros q Hq. apply Ho. auto. Qed.


Lemma framed_store cs w w' : store w' = store w -> framed cs w w'.
Proof. intros Heq. split; intros; by rewrite Heq. Qed.

Lemma framed_update c f w :
  (forall x, Path (f x) = Path x /\ Args (f x) = Args x) ->
  framed [c] w (update c f w).
Proof.
  intros Hf. split.
  - intros q Hq. rewrite store_update. case_decide; [|done].
    subst. exfalso. apply Hq. by left.
  - intros q. rewrite store_update. case_decide; [subst; apply Hf|done].
Qed.

Lemma StdoutPipe_framed c w w' r : StdoutPipe H c w = (w', r) -> framed [c] w w'.
Proof.
  unfold StdoutPipe. intros Hrun.
  destruct (Stdout (store w c)); [simplify_eq; by apply framed_store|].
  destruct (Process (store w c)); [simplify_eq; by apply framed_store|].
  destruct (os_Pipe H (os w)) as [o [e|fd]]; simplify_eq; [by apply framed_store|].
  apply (framed_update c (with_Stdout (Some (PipeWriter fd))) (set_os H o w)). done.
Qed.

Lemma Start_framed c w w' e : Start H c w = (w', e) -> framed [c] w w'.
Proof.
  unfold Start. intros Hrun.
  destruct (Process (store w c)); [simplify_eq; by apply framed_store|].
  destruct (os_StartProcess H (store w c) (os w)) as [[o ks] [msg|pid]]; simplify_eq;
    [by apply framed_store|].
  apply (framed_update c (with_Process (Some pid)) (deliver H ks (set_os H o w))). done.
Qed.

Lemma Wait_framed c w w' e : Wait H c w = (w', e) -> framed [c] w w'.
Proof.
  unfold Wait. intros Hrun.
  destruct (Process (store w c)); [|simplify_eq; by apply framed_store].
  destruct (ProcessState (store w c)); [simplify_eq; by apply framed_store|].
  destruct (os_Wait H (store w c) (os w)) as [[o ks] e']; simplify_eq.
  apply (framed_update c (with_ProcessState true) (deliver H ks (set_os H o w))). done.
Qed.

Lemma run_deferred_store fr w : store (run_deferred H fr w) = store w.
Proof.
  unfold run_deferred. generalize (deferred fr). intros ks. revert w.
  induction ks as [|k ks IH]; intros w; [done|].
  simpl. rewrite IH. unfold deferred_kill.
  destruct (err fr); [|done]. destruct (Process (store w k)) as [pid|]; [|done].
  destruct (Process_Wait_spec H pid (Process_Signal H pid SIGKILL w)) as [_ ->].
  by destruct (Process_Signal_spec H pid SIGKILL w) as [_ ->].
Qed.

Lemma connect_loop_framed stderr cs : forall fr w w' fr' ret,
  connect_loop H stderr cs fr w = (w', fr', ret) -> framed cs w w'.
Proof.
  induction cs as [|c cs IH]; intros fr w w' fr' ret Hrun.
  { simpl in Hrun. simplify_eq. apply framed_refl. }
  destruct cs as [|next cs].
  { simpl in Hrun. simplify_eq. apply framed_refl. }
  rewrite connect_loop_step in Hrun.
  destruct (StdoutPipe H c w) as [w1 r] eqn:HP. apply StdoutPipe_framed in HP.
  assert (framed (c :: next :: cs) w
            (update next (with_Stdin (pipe_reader r)) w1)) as Hf2.
  { eapply framed_trans.
    - eapply framed_mono; [|exact HP]. in_list.
    - eapply framed_mono; [|by apply framed_update]. in_list. }
  destruct r as [msg|fd]; cbn [pipe_error pipe_reader set_err err] in Hrun.
  { by simplify_eq. }
  apply IH in Hrun. eapply framed_trans; [exact Hf2|].
  eapply framed_trans.
  - eapply framed_mono; [|by apply (framed_update c (with_Stderr (Some stderr)))].
    in_list.
  - eapply framed_mono; [|exact Hrun]. in_list.
Qed.

Lemma start_loop_framed cs : forall fr w w' fr' ret,
  start_loop H cs fr w = (w', fr', ret) -> framed cs w w'.
Proof.
  induction cs as [|c cs IH]; intros fr w w' fr' ret Hrun; simpl in Hrun.
  { simplify_eq. apply framed_refl. }
  destruct (Start H c w) as [w1 e] eqn:HS. apply Start_framed in HS.
  assert (framed (c :: cs) w w1) as Hf1 by (eapply framed_mono; [|exact HS]; in_list).
  destruct e as [msg|]; simpl in Hrun; [by simplify_eq|].
  apply IH in Hrun. eapply framed_trans; [exact Hf1|].
  eapply framed_mono; [|exact Hrun]. in_list.
Qed.

Lemma wait_loop_framed cs : forall fr w w' fr' ret,
  wait_loop H cs fr w = (w', fr', ret) -> framed cs w w'.
Proof.
  induction cs as [|c cs IH]; intros fr w w' fr' ret Hrun; simpl in Hrun.
  { simplify_eq. apply framed_refl. }
  destruct (Wait H c w) as [w1 e] eqn:HW. apply Wait_framed in HW.
  assert (framed (c :: cs) w w1) as Hf1 by (eapply framed_mono; [|exact HW]; in_list).
  destruct e as [msg|]; simpl in Hrun; [by simplify_eq|].
  apply IH in Hrun. eapply framed_trans; [exact Hf1|].
  eapply framed_mono; [|exact Hrun]. in_list.
Qed.

Lemma Exec_framed cmd stdin stdout stderr w w' r :
  Exec H cmd stdin stdout stderr w = (w', r) -> framed [cmd] w w'.
Proof.
  unfold Exec. intros Hrun.
  set (w0 := match stdin with
             | Some rd => update cmd (with_Stdin (Some rd)) w
             | None => w
             end) in Hrun.
  assert (framed [cmd] w w0) as H0.
  { subst w0. destruct stdin; [by apply framed_update|apply framed_refl]. }
  set (w1 := update cmd (with_Stderr (Some (default Discard stderr)))
               (update cmd (with_Stdout (Some (default Discard stdout))) w0)) in Hrun.
  assert (framed [cmd] w w1) as H1.
  { eapply framed_trans; [exact H0|]. subst w1.
    eapply framed_trans; by apply framed_update. }
  clearbody w1.
  destruct (Start H cmd w1) as [w2 e2] eqn:HS. apply Start_framed in HS.
  destruct e2 as [msg|].
  { simplify_eq. by eapply framed_trans. }
  destruct (Wait H cmd w2) as [w3 e3] eqn:HW. apply Wait_framed in HW.
  assert (framed [cmd] w w3) by (eapply framed_trans; [|exact HW]; by eapply framed_trans).
  destruct e3; by simplify_eq.
Qed.

Lemma leave_framed cmds st w' r :
  leave H st = (w', r) -> framed cmds st.1.1 w'.
Proof.
  destruct st as [[w fr] ret]. unfold leave. intros [= <- <-]. simpl.
  apply framed_store, run_deferred_store.
Qed.

Lemma attach_framed cmds first stdin stdout stderr fr w w1 fr1 ret :
  first ∈ cmds ->
  List.last cmds first ∈ cmds ->
  attach H cmds first stdin stdout stderr fr w = (w1, fr1, ret) ->
  framed cmds w w1.
Proof.
  unfold attach. intros Hfirst Hlast Hrun.
  set (w0 := match stdin with
             | Some rd => update first (with_Stdin (Some rd)) w
             | None => w
             end) in Hrun.
  assert (framed cmds w w0) as H0.
  { subst w0. destruct stdin; [|apply framed_refl].
    eapply framed_mono; [|by apply framed_update].
    intros q Hq. apply list_elem_of_singleton in Hq. by subst q. }
  clearbody w0.
  destruct (connect_loop H (default Discard stderr) cmds fr w0)
    as [[w2 fr2] ret2] eqn:HC.
  apply connect_loop_framed in HC.
  assert (framed cmds w w2) as H2 by (by eapply framed_trans).
  destruct ret2; simplify_eq; [done|].
  eapply framed_trans; [exact H2|].
  eapply framed_trans.
  - eapply framed_mono;
      [|apply (framed_update (List.last cmds first)
                 (with_Stdout (Some (default Discard stdout))) w2); done].
    intros q Hq. apply list_elem_of_singleton in Hq. by subst q.
  - eapply framed_mono;
      [|apply (framed_update (List.last cmds first)
                 (with_Stderr (Some (default Discard stderr)))); done].
    intros q Hq. apply list_elem_of_singleton in Hq. by subst q.
Qed.

Lemma run_framed cmds fr w w' fr' ret :
  run H cmds fr w = (w', fr', ret) -> framed cmds w w'.
Proof.
  unfold run. intros Hrun.
  destruct (start_loop H cmds fr w) as [[w3 fr3] ret3] eqn:HS.
  apply start_loop_framed in HS.
  destruct ret3; [by simplify_eq|].
  destruct (wait_loop H cmds fr3 w3) as [[w4 fr4] ret4] eqn:HW.
  apply wait_loop_framed in HW.
  destruct ret4; simplify_eq; by eapply framed_trans.
Qed.

Lemma ExecPipeline_framed cmds stdin stdout stderr w w' r :
  ExecPipeline H cmds stdin stdout stderr w = (w', r) -> framed cmds w w'.
Proof.
  unfold ExecPipeline. intros Hrun.
  destruct cmds as [|first rest]; [simplify_eq; apply framed_refl|].
  destruct (attach H (first :: rest) first stdin stdout stderr (mkFrame None []) w)
    as [[w1 fr1] ret1] eqn:HA.
  apply attach_framed in HA; [|by left|].
  2: { rewrite (app_removelast_last (l := first :: rest) first) at 2 by done.
       apply elem_of_app. right. by left. }
  destruct ret1 as [v|].
  { apply (leave_framed (first :: rest)) in Hrun. by eapply framed_trans. }
  destruct (run H (first :: rest) fr1 w1) as [[w2 fr2] ret2] eqn:HR.
  apply run_framed in HR.
  apply (leave_framed (first :: rest)) in Hrun.
  eapply framed_trans; [exact HA|]. by eapply framed_trans.
Qed.

End Frames.

(** X1.  A single-command executor writes to [cmd] only, and to its streams
    and process only: every other descriptor is left as it was, and the path
    and arguments of [cmd] too.  This holds for [Exec], for [ExecE] (and so
    for [ExecStdin] and [ExecStdout]) and for [ExecO]. *)
Theorem X1_single_command_frame H cmd stdin stdout stderr (w : World H) :
  let touched (w' : World H) :=
    (forall q, q <> cmd -> store w' q = store w q) /\
    Path (store w' cmd) = Path (store w cmd) /\
    Args (store w' cmd) = Args (store w cmd) in
  touched (Exec H cmd stdin stdout stderr w).1 /\
  touched (ExecE H cmd stdin stdout w).1 /\
  touched (ExecStdin H cmd stdin w).1 /\
  touched (ExecStdout H cmd stdout w).1 /\
  touched (ExecO H cmd stdin w).1.
Proof.
  intros touched.
  assert (forall w0 w' : World H, store w0 = store w -> framed [cmd] w0 w' -> touched w')
    as Huse.
  { intros w0 w' Hw0 [Ho Hp]. unfold touched. rewrite <- Hw0. split.
    - intros q Hq. apply Ho. intros Hin. by apply list_elem_of_singleton in Hin.
    - apply Hp. }
  assert (forall i o, touched (ExecE H cmd i o w).1) as HE.
  { intros i o. unfold ExecE. simpl.
    destruct (Exec H cmd i o _ _) as [w1 r] eqn:HX.
    apply Exec_framed in HX. apply Huse in HX; [|done]. by destruct r. }
  split_and!.
  - destruct (Exec H cmd stdin stdout stderr w) as [w1 r] eqn:HX.
    apply Exec_framed in HX. by eapply Huse.
  - apply HE.
  - apply HE.
  - apply HE.
  - unfold ExecO, ExecE. simpl.
    destruct (Exec H cmd stdin _ _ _) as [w1 r] eqn:HX.
    apply Exec_framed in HX. apply Huse in HX; [|done]. by destruct r.
Qed.

(** X2.  [ExecPipeline], [ExecPipelineE] and [ExecPipelineO] leave every
    descriptor that is not in the pipeline as it was, and change the path and
    the arguments of no descriptor at all. *)
Theorem X2_pipeline_frame H cmds stdin stdout stderr (w : World H) :
  let touched (w' : World H) :=
    (forall q, q ∉ cmds -> store w' q = store w q) /\
    (forall q, Path (store w' q) = Path (store w q) /\
               Args (store w' q) = Args (store w q)) in
  touched (ExecPipeline H cmds stdin stdout stderr w).1 /\
  touched (ExecPipelineE H cmds stdin stdout w).1 /\
  touched (ExecPipelineO H cmds stdin w).1.
Proof.
  intros touched.
  assert (forall w0 w' : World H, store w0 = store w -> framed cmds w0 w' -> touched w')
    as Huse.
  { intros w0 w' Hw0 [Ho Hp]. unfold touched. rewrite <- Hw0. by split. }
  split_and!.
  - destruct (ExecPipeline H cmds stdin stdout stderr w) as [w1 r] eqn:HX.
    apply ExecPipeline_framed in HX. by eapply Huse.
  - unfold ExecPipelineE. simpl.
    destruct (ExecPipeline H cmds stdin stdout _ _) as [w1 r] eqn:HX.
    apply ExecPipeline_framed in HX. apply Huse in HX; [|done]. by destruct r.
  - unfold ExecPipelineO, ExecPipelineE. simpl.
    destruct (ExecPipeline H cmds stdin _ _ _) as [w1 r] eqn:HX.
    apply ExecPipeline_framed in HX. apply Huse in HX; [|done]. by destruct r.
Qed.

(** ** The calls of a single command *)

(** X3.  [Exec] calls [Start] once, on [cmd]; it calls [Wait], once and on
    [cmd], exactly when [Start] succeeded; it makes no pipe, sends no signal
    and never waits through the process handle, so a command that exits with
    an error is not killed.  It returns nil exactly when [Wait] returned
    nil. *)
Theorem X3_Exec_calls H cmd stdin stdout stderr (w w' : World H) r evs :
  Exec H cmd stdin stdout stderr w = (w', r) ->
  trace w' = trace w ++ evs ->
  started_cmds evs = [cmd] /\
  piped_cmds evs = [] /\
  Forall (fun e => is_kill e = false) evs /\
  ((exists pid, StartCall cmd (inr pid) ∈ evs) /\ waited_cmds evs = [cmd] \/
   (exists msg, StartCall cmd (inl msg) ∈ evs) /\ waited_cmds evs = []) /\
  (r = None <-> WaitCall cmd None ∈ evs).
Proof.
  intros Hrun Ht.
  apply Exec_spec in Hrun as [_ [(msg & Ht' & ->)|(pid & e & Ht' & ->)]];
    rewrite Ht' in Ht; apply app_inv_head in Ht as <-; simpl.
  - split_and!; try done.
    + by repeat constructor.
    + right. split; [|done]. exists msg. by left.
    + split; [done|]. intros Hin. apply list_elem_of_singleton in Hin. done.
  - split_and!; try done.
    + by repeat constructor.
    + left. split; [|done]. exists pid. by left.
    + split.
      * destruct e; [done|]. intros _. right. by left.
      * intros Hin. apply elem_of_cons in Hin as [Hin|Hin]; [done|].
        apply list_elem_of_singleton in Hin. by simplify_eq.
Qed.

Lemma X3_Exec_calls_witness :
  started_cmds (trace Demo.runX.1) = [1] /\
  piped_cmds (trace Demo.runX.1) = [] /\
  Forall (fun e => is_kill e = false) (trace Demo.runX.1) /\
  ((exists pid, StartCall 1 (inr pid) ∈ trace Demo.runX.1)
     /\ waited_cmds (trace Demo.runX.1) = [1] \/
   (exists msg, StartCall 1 (inl msg) ∈ trace Demo.runX.1)
     /\ waited_cmds (trace Demo.runX.1) = []) /\
  (Demo.runX.2 = None <-> WaitCall 1 None ∈ trace Demo.runX.1).
Proof.
  apply (X3_Exec_calls Demo.host 1 None None None Demo.world Demo.runX.1).
  - vm_compute. reflexivity.
  - vm_compute. reflexivity.
Defined.

(** ** The order of the calls of a pipeline *)

Lemma piped_cmds_app l1 l2 : piped_cmds (l1 ++ l2) = piped_cmds l1 ++ piped_cmds l2.
Proof. induction l1 as [|[] l1 IH]; simpl; by rewrite ?IH. Qed.

Lemma started_cmds_app l1 l2 :
  started_cmds (l1 ++ l2) = started_cmds l1 ++ started_cmds l2.
Proof. induction l1 as [|[] l1 IH]; simpl; by rewrite ?IH. Qed.

Lemma waited_cmds_app l1 l2 :
  waited_cmds (l1 ++ l2) = waited_cmds l1 ++ waited_cmds l2.
Proof. induction l1 as [|[] l1 IH]; simpl; by rewrite ?IH. Qed.

Lemma cmds_of_piped ps :
  piped_cmds (piped ps) = ps.*1 /\ started_cmds (piped ps) = [] /\
  waited_cmds (piped ps) = [] /\ Forall (fun e => is_pipe e = true) (piped ps).
Proof.
  induction ps as [|[c fd] ps (IH1 & IH2 & IH3 & IH4)]; [by repeat split|].
  simpl. rewrite IH1. by repeat split; try constructor.
Qed.

Lemma cmds_of_started ss :
  piped_cmds (started ss) = [] /\ started_cmds (started ss) = ss.*1 /\
  waited_cmds (started ss) = [] /\ Forall (fun e => is_start e = true) (started ss).
Proof.
  induction ss as [|[c pid] ss (IH1 & IH2 & IH3 & IH4)]; [by repeat split|].
  simpl. rewrite IH2. by repeat split; try constructor.
Qed.

Lemma cmds_of_waited cs :
  piped_cmds (waited cs) = [] /\ started_cmds (waited cs) = [] /\
  waited_cmds (waited cs) = cs /\ Forall (fun e => is_wait e = true) (waited cs).
Proof.
  induction cs as [|c cs (IH1 & IH2 & IH3 & IH4)]; [by repeat split|].
  simpl. rewrite IH3. by repeat split; try constructor.
Qed.

Lemma cmds_of_killed pids :
  piped_cmds (killed pids) = [] /\ started_cmds (killed pids) = [] /\
  waited_cmds (killed pids) = [] /\ Forall (fun e => is_kill e = true) (killed pids).
Proof.
  induction pids as [|pid pids (IH1 & IH2 & IH3 & IH4)]; [by repeat split|].
  simpl. split_and!; try done. by repeat constructor.
Qed.

Lemma take_S_prefix_removelast (l : list ptr) k :
  S k < length l -> take (S k) l `prefix_of` removelast l.
Proof.
  intros Hk. rewrite removelast_firstn_len.
  replace (take (S k) l) with (take (S k) (take (Nat.pred (length l)) l)).
  - apply prefix_take.
  - rewrite take_take. f_equal. lia.
Qed.

(** X4.  [ExecPipeline] makes its calls in four phases: [StdoutPipe] calls,
    then [Start] calls, then [Wait] calls, then the calls on process handles.
    In each of the first three the commands are taken in the order of the
    pipeline, from the first on and without a gap.  No command is started
    before every command but the last has its pipe, and no command is waited
    for before every command has been started. *)
Theorem X4_call_order H cmds stdin stdout stderr (w w' : World H) r evs :
  ExecPipeline H cmds stdin stdout stderr w = (w', r) ->
  trace w' = trace w ++ evs ->
  piped_cmds evs `prefix_of` removelast cmds /\
  started_cmds evs `prefix_of` cmds /\
  waited_cmds evs `prefix_of` cmds /\
  (started_cmds evs <> [] -> piped_cmds evs = removelast cmds) /\
  (waited_cmds evs <> [] -> started_cmds evs = cmds) /\
  exists l1 l2 l3 l4,
    evs = l1 ++ l2 ++ l3 ++ l4 /\
    Forall (fun e => is_pipe e = true) l1 /\
    Forall (fun e => is_start e = true) l2 /\
    Forall (fun e => is_wait e = true) l3 /\
    Forall (fun e => is_kill e = true) l4.
Proof.
  intros Hrun Ht. destruct (decide (cmds = [])) as [->|Hne].
  { simpl in Hrun. simplify_eq. rewrite <- (app_nil_r (trace w')) in Ht at 1.
    apply app_inv_head in Ht as <-. simpl. split_and!; try done.
    by exists [], [], [], []. }
  apply ExecPipeline_outcome in Hrun as (evs' & Ht' & Hout); [|done].
  rewrite Ht' in Ht. apply app_inv_head in Ht as ->.
  destruct Hout as [k c msg ps Hk Hlen Hps
                   |k c msg ps ss Hps Hk Hss
                   |k c msg ps ss Hps Hss Hk
                   |ps ss Hps Hss];
    destruct (cmds_of_piped ps) as (Hp1 & Hp2 & Hp3 & Hp4);
    try destruct (cmds_of_started ss) as (Hs1 & Hs2 & Hs3 & Hs4);
    try destruct (cmds_of_killed (rev ss.*2)) as (Hk1 & Hk2 & Hk3 & Hk4);
    rewrite ?piped_cmds_app, ?started_cmds_app, ?waited_cmds_app,
      ?Hp1, ?Hp2, ?Hp3, ?Hs1, ?Hs2, ?Hs3, ?Hk1, ?Hk2, ?Hk3; simpl;
    rewrite ?app_nil_r.
  - rewrite Hps, <- (take_S_r _ _ _ Hk).
    split_and!; try done; [by apply take_S_prefix_removelast|by apply prefix_nil..|].
    exists (piped ps ++ [StdoutPipeCall c (inl msg)]), [], [], [].
    rewrite !app_nil_r. split; [done|]. split; [|done].
    apply Forall_app. by split; [|repeat constructor].
  - rewrite Hps, Hss, <- (take_S_r _ _ _ Hk).
    split_and!; try done; [apply prefix_take|by apply prefix_nil|].
    exists (piped ps), (started ss ++ [StartCall c (inl msg)]), [], (killed (rev ss.*2)).
    rewrite <- !app_assoc. split; [done|]. split; [done|].
    split; [|done]. apply Forall_app. by split; [|repeat constructor].
  - destruct (cmds_of_waited (take k cmds)) as (Hw1 & Hw2 & Hw3 & Hw4).
    rewrite Hw1, Hw2, Hw3, Hps, Hss, <- (take_S_r _ _ _ Hk). simpl.
    rewrite ?app_nil_r.
    split_and!; try done; [apply prefix_take|].
    exists (piped ps), (started ss),
      (waited (take k cmds) ++ [WaitCall c (Some msg)]), (killed (rev ss.*2)).
    rewrite <- !app_assoc. split; [done|]. split; [done|]. split; [done|].
    split; [|done]. apply Forall_app. by split; [|repeat constructor].
  - destruct (cmds_of_waited cmds) as (Hw1 & Hw2 & Hw3 & Hw4).
    rewrite Hw1, Hw2, Hw3, Hps, Hss. simpl. rewrite ?app_nil_r.
    split_and!; try done.
    exists (piped ps), (started ss), (waited cmds), [].
    by rewrite app_nil_r.
Qed.

Lemma X4_call_order_witness :
  piped_cmds (trace Demo.run4.1) `prefix_of` removelast [0; 3; 2; 1] /\
  started_cmds (trace Demo.run4.1) `prefix_of` [0; 3; 2; 1] /\
  waited_cmds (trace Demo.run4.1) `prefix_of` [0; 3; 2; 1] /\
  (started_cmds (trace Demo.run4.1) <> []
   -> piped_cmds (trace Demo.run4.1) = removelast [0; 3; 2; 1]) /\
  (waited_cmds (trace Demo.run4.1) <> []
   -> started_cmds (trace Demo.run4.1) = [0; 3; 2; 1]) /\
  exists l1 l2 l3 l4,
    trace Demo.run4.1 = l1 ++ l2 ++ l3 ++ l4 /\
    Forall (fun e => is_pipe e = true) l1 /\
    Forall (fun e => is_start e = true) l2 /\
    Forall (fun e => is_wait e = true) l3 /\
    Forall (fun e => is_kill e = true) l4.
Proof.
  apply (X4_call_order Demo.host [0; 3; 2; 1] None None None Demo.world
           Demo.run4.1 Demo.run4.2).
  - vm_compute. reflexivity.
  - vm_compute. reflexivity.
Defined.

(** ** Success and failure of a pipeline *)

Lemma no_failure_in_ok_calls ps ss cs pids :
  List.filter call_failed (piped ps) = [] /\
  List.filter call_failed (started ss) = [] /\
  List.filter call_failed (waited cs) = [] /\
  List.filter call_failed (killed pids) = [].
Proof.
  split_and!.
  - induction ps as [|[c fd] ps IH]; simpl; auto.
  - induction ss as [|[c pid] ss IH]; simpl; auto.
  - induction cs as [|c cs IH]; simpl; auto.
  - induction pids as [|pid pids IH]; simpl; auto.
Qed.

(** X5.  On a non-empty pipeline the first call that fails is the last call
    that can fail: exactly one call of the log has returned an error when
    [ExecPipeline] returns an error, and none when it returns nil.  When it
    returns nil, every command but the last got a pipe, every command was
    started and then waited for, and no process was signalled or waited for
    through its handle. *)
Theorem X5_one_failure H cmds stdin stdout stderr (w w' : World H) r evs :
  cmds <> [] ->
  ExecPipeline H cmds stdin stdout stderr w = (w', r) ->
  trace w' = trace w ++ evs ->
  length (List.filter call_failed evs) = match r with None => 0 | Some _ => 1 end /\
  (r = None ->
   piped_cmds evs = removelast cmds /\
   started_cmds evs = cmds /\
   waited_cmds evs = cmds /\
   Forall (fun e => is_kill e = false) evs /\
   length evs = 3 * length cmds - 1).
Proof.
  intros Hne Hrun Ht.
  apply ExecPipeline_outcome in Hrun as (evs' & Ht' & Hout); [|done].
  rewrite Ht' in Ht. apply app_inv_head in Ht as ->.
  destruct Hout as [k c msg ps Hk Hlen Hps
                   |k c msg ps ss Hps Hk Hss
                   |k c msg ps ss Hps Hss Hk
                   |ps ss Hps Hss].
  - destruct (no_failure_in_ok_calls ps [] [] []) as (Hf1 & _).
    rewrite List.filter_app, Hf1. done.
  - destruct (no_failure_in_ok_calls ps ss [] (rev ss.*2)) as (Hf1 & Hf2 & _ & Hf4).
    rewrite !List.filter_app, Hf1, Hf2, Hf4. done.
  - destruct (no_failure_in_ok_calls ps ss (take k cmds) (rev ss.*2))
      as (Hf1 & Hf2 & Hf3 & Hf4).
    rewrite !List.filter_app, Hf1, Hf2, Hf3, Hf4. done.
  - destruct (no_failure_in_ok_calls ps ss cmds []) as (Hf1 & Hf2 & Hf3 & _).
    rewrite !List.filter_app, Hf1, Hf2, Hf3. split; [done|]. intros _.
    destruct (cmds_of_piped ps) as (Hp1 & Hp2 & Hp3 & _).
    destruct (cmds_of_started ss) as (Hs1 & Hs2 & Hs3 & _).
    destruct (cmds_of_waited cmds) as (Hw1 & Hw2 & Hw3 & _).
    rewrite !piped_cmds_app, !started_cmds_app, !waited_cmds_app,
      Hp1, Hp2, Hp3, Hs1, Hs2, Hs3, Hw1, Hw2, Hw3, Hps, Hss. simpl.
    rewrite !app_nil_r. split_and!; try done.
    + rewrite !Forall_app. split; [apply no_kill_piped|].
      split; [apply no_kill_started|apply no_kill_waited].
    + unfold piped, started, waited. rewrite !length_app, !length_map.
      rewrite <- (length_fmap fst ps), <- (length_fmap fst ss), Hps, Hss.
      rewrite removelast_firstn_len, length_take.
      destruct cmds; [done|]. simpl. lia.
Qed.

Lemma X5_one_failure_witness :
  (length (List.filter call_failed (trace Demo.runOK.1))
     = match Demo.runOK.2 with None => 0 | Some _ => 1 end /\
   (Demo.runOK.2 = None ->
    piped_cmds (trace Demo.runOK.1) = removelast [0; 3] /\
    started_cmds (trace Demo.runOK.1) = [0; 3] /\
    waited_cmds (trace Demo.runOK.1) = [0; 3] /\
    Forall (fun e => is_kill e = false) (trace Demo.runOK.1) /\
    length (trace Demo.runOK.1) = 3 * length [0; 3] - 1)) /\
  length (List.filter call_failed (trace Demo.run3.1))
    = match Demo.run3.2 with None => 0 | Some _ => 1 end.
Proof.
  split.
  - apply (X5_one_failure Demo.host [0; 3] None None None Demo.world
             Demo.runOK.1 Demo.runOK.2); [done|vm_compute; reflexivity..].
  - apply (X5_one_failure Demo.host [0; 1; 3] None None None Demo.world
             Demo.run3.1 Demo.run3.2); [done|vm_compute; reflexivity..].
Defined.

(** ** A pipe that cannot be made *)

Lemma connect_loop_failure H stderr cs : forall fr (w w' : World H) fr' v,
  connect_loop H stderr cs fr w = (w', fr', Some v) ->
  exists k c next msg (ps : list (ptr * nat)),
    cs !! k = Some c /\ cs !! S k = Some next /\ ps.*1 = take k cs /\
    trace w' = trace w ++ piped ps ++ [StdoutPipeCall c (inl msg)] /\
    v = Some (Errorf_s_s (Path (store w c)) msg) /\
    Stdin (store w' next) = None.
Proof.
  induction cs as [|c cs IH]; intros fr w w' fr' v Hrun; [done|].
  destruct cs as [|next cs]; [done|].
  rewrite connect_loop_step in Hrun.
  destruct (StdoutPipe H c w) as [w1 r] eqn:HP.
  pose proof HP as Hf. apply StdoutPipe_framed in Hf as [_ Hprog].
  apply StdoutPipe_spec in HP as (Ht & _).
  destruct r as [msg|fd]; cbn [pipe_error pipe_reader set_err err] in Hrun.
  - simplify_eq. exists 0, c, next, msg, []. split_and!; try done.
    + do 2 f_equal. rewrite fn_insert_decide. destruct (Hprog c) as [<- _].
      by case_decide; simplify_eq.
    + rewrite store_update. by case_decide.
  - apply IH in Hrun as (k & c0 & n0 & msg & ps & Hk & HSk & Hps & Ht' & -> & HI).
    exists (S k), c0, n0, msg, ((c, fd) :: ps). rewrite fmap_cons, Hps.
    split_and!; try done.
    + rewrite Ht'. simpl. rewrite Ht, <- app_assoc. done.
    + do 2 f_equal. rewrite !store_update. destruct (Hprog c0) as [<- _].
      by repeat case_decide; simplify_eq.
Qed.

(** X6.  When a [StdoutPipe] fails, that call is the last of the log:
    nothing has been started.  The error is the path of the command, a space
    and the text of the error, and the [Stdin] of the command that would have
    read from the pipe has been set to nil, whatever the caller had put
    there. *)
Theorem X6_pipe_failure H cmds stdin stdout stderr (w w' : World H) r evs c msg :
  ExecPipeline H cmds stdin stdout stderr w = (w', r) ->
  trace w' = trace w ++ evs ->
  StdoutPipeCall c (inl msg) ∈ evs ->
  exists k next (ps : list (ptr * nat)),
    cmds !! k = Some c /\ cmds !! S k = Some next /\ ps.*1 = take k cmds /\
    evs = piped ps ++ [StdoutPipeCall c (inl msg)] /\
    started_cmds evs = [] /\
    r = Some (Path (store w c) +:+ " " +:+ msg)%string /\
    Stdin (store w' next) = None.
Proof.
  intros Hrun Ht He. destruct cmds as [|first rest].
  { simpl in Hrun. simplify_eq. rewrite <- (app_nil_r (trace w')) in Ht at 1.
    apply app_inv_head in Ht as <-. by apply elem_of_nil in He. }
  unfold ExecPipeline in Hrun.
  destruct (attach H (first :: rest) first stdin stdout stderr (mkFrame None []) w)
    as [[w1 fr1] ret] eqn:HA.
  pose proof HA as Hspec. eapply attach_spec in Hspec as (_ & Hdef & Hret); [|done..].
  destruct ret as [v|].
  - unfold leave, run_deferred in Hrun. rewrite Hdef in Hrun. simpl in Hrun.
    simplify_eq. clear Hret. revert HA. unfold attach.
    set (w0 := match stdin with
               | Some rd => update first (with_Stdin (Some rd)) w
               | None => w
               end).
    assert (trace w0 = trace w) as Ht0 by (subst w0; by destruct stdin).
    assert (forall q, Path (store w0 q) = Path (store w q)) as HP0.
    { intros q. subst w0. destruct stdin; [|done]. rewrite store_update.
      by case_decide; simplify_eq. }
    destruct (connect_loop H (default Discard stderr) (first :: rest)
                (mkFrame None []) w0) as [[w2 fr2] [v2|]] eqn:HC; [|done].
    intros [= <- <- <-].
    apply connect_loop_failure in HC
      as (k & c0 & next & msg0 & ps & Hk & HSk & Hps & Ht' & -> & HI).
    rewrite Ht0 in Ht'. rewrite Ht' in Ht. apply app_inv_head in Ht as <-.
    locate_call He. exists k, next, ps.
    destruct (cmds_of_piped ps) as (_ & Hs & _).
    rewrite started_cmds_app, Hs, HP0. done.
  - exfalso. destruct Hret as (ps & _ & Ht1 & Herr).
    apply leave_run_spec in Hrun as (_ & ss & Hcases); [|done..].
    destruct Hcases as [(k & c0 & msg0 & _ & _ & Ht' & _)
                       |[(k & c0 & msg0 & _ & _ & Ht' & _)|(_ & Ht' & _)]];
      rewrite Ht1, <- app_assoc in Ht'; rewrite Ht' in Ht;
      apply app_inv_head in Ht as <-; locate_call He.
Qed.

Lemma X6_pipe_failure_witness :
  Stdin (store Demo.fed 3) = Some (ExtReader 9) /\
  exists k next (ps : list (ptr * nat)),
    [0; 3] !! k = Some 0 /\ [0; 3] !! S k = Some next /\ ps.*1 = take k [0; 3] /\
    trace Demo.runNP.1
      = piped ps ++ [StdoutPipeCall 0 (inl "too many open files"%string)] /\
    started_cmds (trace Demo.runNP.1) = [] /\
    Demo.runNP.2 = Some (Path (store Demo.fed 0) +:+ " " +:+ "too many open files")%string /\
    Stdin (store Demo.runNP.1 next) = None.
Proof.
  split; [reflexivity|].
  apply (X6_pipe_failure Demo.no_pipes [0; 3] None None None Demo.fed Demo.runNP.1).
  - vm_compute. reflexivity.
  - vm_compute. reflexivity.
  - vm_compute. left.
Defined.

(** ** What a command wrote *)

Lemma deliver_buffers ks : forall (bufs : nat -> list byte) b,
  fold_left write_chunk ks bufs b = bufs b ++ sent_to b ks.
Proof.
  induction ks as [|[wr bytes] ks IH]; intros bufs b; simpl.
  { by rewrite app_nil_r. }
  rewrite IH. unfold write_chunk. simpl.
  destruct wr as [| | |a]; try done.
  destruct (decide (a = b)) as [->|Hne].
  - by rewrite fn_lookup_insert, <- app_assoc.
  - by rewrite fn_lookup_insert_ne.
Qed.

Lemma Start_Wait_runs H cmd (c0 : Cmd) (w0 : World H) o1 ks1 res :
  store w0 cmd = c0 ->
  Process c0 = None ->
  ProcessState c0 = false ->
  os_StartProcess H c0 (os w0) = (o1, ks1, res) ->
  match res with
  | inl msg =>
      exists w',
        Start H cmd w0 = (w', Some msg) /\
        Path (store w' cmd) = Path c0 /\
        forall b, buffers w' b = buffers w0 b ++ sent_to b ks1
  | inr pid =>
      forall o2 ks2 e,
        os_Wait H (with_Process (Some pid) c0) o1 = (o2, ks2, e) ->
        exists w1 w',
          Start H cmd w0 = (w1, None) /\
          Wait H cmd w1 = (w', e) /\
          Path (store w' cmd) = Path c0 /\
          forall b, buffers w' b = buffers w0 b ++ sent_to b ks1 ++ sent_to b ks2
  end.
Proof.
  intros Hc0 HP0 HPS0 HS. unfold Start. rewrite Hc0, HP0, HS.
  destruct res as [msg|pid].
  - eexists. split; [reflexivity|]. split; [by rewrite <- Hc0|].
    intros b. simpl. by rewrite deliver_buffers.
  - intros o2 ks2 e HW. eexists. eexists. split; [reflexivity|].
    unfold Wait.
    assert (store (log H (StartCall cmd (inr pid))
                     (update cmd (with_Process (Some pid))
                        (deliver H ks1 (set_os H o1 w0)))) cmd
            = with_Process (Some pid) c0) as ->.
    { simpl. by rewrite fn_lookup_insert, Hc0. }
    cbn [Process ProcessState with_Process]. rewrite HPS0.
    change (os (log H (StartCall cmd (inr pid))
                  (update cmd (with_Process (Some pid))
                     (deliver H ks1 (set_os H o1 w0))))) with o1.
    rewrite HW. split; [reflexivity|]. split.
    + simpl. rewrite !fn_lookup_insert. simpl. by rewrite Hc0.
    + intros b. simpl. by rewrite !deliver_buffers, <- app_assoc.
Qed.

Lemma Exec_runs H cmd stdin stdout stderr (w : World H) o1 ks1 res :
  Process (store w cmd) = None ->
  ProcessState (store w cmd) = false ->
  let c0 := with_Stderr (Some (default Discard stderr))
              (with_Stdout (Some (default Discard stdout))
                 match stdin with
                 | Some rd => with_Stdin (Some rd) (store w cmd)
                 | None => store w cmd
                 end) in
  os_StartProcess H c0 (os w) = (o1, ks1, res) ->
  match res with
  | inl msg =>
      exists w',
        Exec H cmd stdin stdout stderr w
          = (w', Some (Errorf_s_s (Path (store w cmd)) msg)) /\
        forall b, buffers w' b = buffers w b ++ sent_to b ks1
  | inr pid =>
      forall o2 ks2 e,
        os_Wait H (with_Process (Some pid) c0) o1 = (o2, ks2, e) ->
        exists w',
          Exec H cmd stdin stdout stderr w
            = (w', Errorf_s_s (Path (store w cmd)) <$> e) /\
          forall b, buffers w' b = buffers w b ++ sent_to b ks1 ++ sent_to b ks2
  end.
Proof.
  intros HP HPS c0 HS.
  assert (Path c0 = Path (store w cmd)) as HPath by (subst c0; by destruct stdin).
  assert (Process c0 = None) as HP0 by (subst c0; by destruct stdin).
  assert (ProcessState c0 = false) as HPS0 by (subst c0; by destruct stdin).
  unfold Exec.
  set (w0 := update cmd (with_Stderr (Some (default Discard stderr)))
               (update cmd (with_Stdout (Some (default Discard stdout)))
                  match stdin with
                  | Some rd => update cmd (with_Stdin (Some rd)) w
                  | None => w
                  end)).
  assert (store w0 cmd = c0) as Hc0.
  { subst w0 c0. destruct stdin; simpl; rewrite !fn_lookup_insert; done. }
  assert (os w0 = os w) as Hos by (subst w0; by destruct stdin).
  assert (buffers w0 = buffers w) as Hbufs by (subst w0; by destruct stdin).
  clearbody w0 c0. rewrite <- Hos in HS.
  pose proof (Start_Wait_runs H cmd c0 w0 o1 ks1 res Hc0 HP0 HPS0 HS) as Hgo.
  destruct res as [msg|pid].
  - destruct Hgo as (w' & -> & HPath' & Hb). exists w'.
    rewrite HPath', HPath, <- Hbufs. done.
  - intros o2 ks2 e HW. destruct (Hgo o2 ks2 e HW) as (w1 & w' & -> & -> & HPath' & Hb).
    exists w'. rewrite <- Hbufs. split; [|done].
    destruct e; simpl; by rewrite ?HPath', ?HPath.
Qed.

(** X7.  [ExecO] on a command that has not been started hands the command
    two new buffers, for its output and for its error stream.  When the
    command exits with success, the slice returned holds exactly the bytes
    that came through for the output buffer while the command was started and
    waited for, in the order in which they came.  When the command cannot be
    started, or exits with an error, the slice is nil and the error text is
    the path, a space, the error, [" - "] and exactly the bytes that came
    through for the error buffer. *)
Theorem X7_ExecO_output H cmd stdin (w : World H) o1 ks1 res :
  Process (store w cmd) = None ->
  ProcessState (store w cmd) = false ->
  let outb := next_buffer w in
  let errb := S (next_buffer w) in
  let c0 := with_Stderr (Some (Buffer errb))
              (with_Stdout (Some (Buffer outb))
                 match stdin with
                 | Some rd => with_Stdin (Some rd) (store w cmd)
                 | None => store w cmd
                 end) in
  os_StartProcess H c0 (os w) = (o1, ks1, res) ->
  match res with
  | inl msg =>
      (ExecO H cmd stdin w).2
      = ([], Some ((Path (store w cmd) +:+ " " +:+ msg) +:+ " - "
                     +:+ string_of_list_byte (sent_to errb ks1))%string)
  | inr pid =>
      forall o2 ks2 e,
        os_Wait H (with_Process (Some pid) c0) o1 = (o2, ks2, e) ->
        (ExecO H cmd stdin w).2
        = match e with
          | None => (sent_to outb ks1 ++ sent_to outb ks2, None)
          | Some msg =>
              ([], Some ((Path (store w cmd) +:+ " " +:+ msg) +:+ " - "
                           +:+ string_of_list_byte
                                 (sent_to errb ks1 ++ sent_to errb ks2))%string)
          end
  end.
Proof.
  intros HP HPS outb errb c0 HS.
  set (w2 := (new_Buffer H (new_Buffer H w).1).1).
  assert (buffers w2 outb = [] /\ buffers w2 errb = []) as [Hout Herr].
  { subst w2 outb errb. simpl. split.
    - rewrite fn_lookup_insert_ne by lia. by rewrite fn_lookup_insert.
    - by rewrite fn_lookup_insert. }
  pose proof (Exec_runs H cmd stdin (Some (Buffer outb)) (Some (Buffer errb)) w2
                o1 ks1 res HP HPS HS) as Hgo.
  unfold ExecO, ExecE. simpl.
  change (Exec H cmd stdin (Some (Buffer (next_buffer w)))
            (Some (Buffer (S (next_buffer w)))) _)
    with (Exec H cmd stdin (Some (Buffer outb)) (Some (Buffer errb)) w2).
  destruct res as [msg|pid].
  - destruct Hgo as (w' & -> & Hb). unfold String_.
    change (S (next_buffer w)) with errb. by rewrite Hb, Herr.
  - intros o2 ks2 e HW. destruct (Hgo o2 ks2 e HW) as (w' & -> & Hb).
    destruct e as [msg|]; simpl; unfold String_, Bytes.
    + change (S (next_buffer w)) with errb. by rewrite Hb, Herr.
    + change (next_buffer w) with outb. by rewrite Hb, Hout.
Qed.

Lemma X7_ExecO_output_witness :
  Demo.runO.2 = ([], Some "sh exit status 1 - oops"%string) /\
  (ExecO Demo.host 0 None Demo.world).2 = (list_byte_of_string "hello", None).
Proof.
  split.
  - apply (X7_ExecO_output Demo.host 1 None Demo.world 1 [] (inr 0)
             eq_refl eq_refl eq_refl 1
             [(Buffer 0, list_byte_of_string "hi");
              (Buffer 1, list_byte_of_string "oops")]
             (Some "exit status 1"%string)).
    reflexivity.
  - apply (X7_ExecO_output Demo.host 0 None Demo.world 1 [] (inr 0)
             eq_refl eq_refl eq_refl 1
             [(Buffer 0, list_byte_of_string "hello")] None).
    reflexivity.
Defined.

(** ** Input only, output only *)

(** X8.  [ExecStdin] gives the command the reader it is given (and leaves
    [cmd.Stdin] as it was when given nil), and makes it write to [Discard];
    [ExecStdout] leaves [cmd.Stdin] as it was and makes the command write to
    the writer it is given, or to [Discard] when given nil.  Both leave the
    command with a new buffer as its error stream, and both return nil
    exactly when their log has a [Wait] that returned nil. *)
Theorem X8_input_only_output_only H cmd (w : World H) :
  (forall stdin w' r evs,
     ExecStdin H cmd stdin w = (w', r) ->
     trace w' = trace w ++ evs ->
     Stdin (store w' cmd) = match stdin with
                            | Some rd => Some rd
                            | None => Stdin (store w cmd)
                            end /\
     Stdout (store w' cmd) = Some Discard /\
     Stderr (store w' cmd) = Some (Buffer (next_buffer w)) /\
     (r = None <-> WaitCall cmd None ∈ evs)) /\
  (forall stdout w' r evs,
     ExecStdout H cmd stdout w = (w', r) ->
     trace w' = trace w ++ evs ->
     Stdin (store w' cmd) = Stdin (store w cmd) /\
     Stdout (store w' cmd) = Some (default Discard stdout) /\
     Stderr (store w' cmd) = Some (Buffer (next_buffer w)) /\
     (r = None <-> WaitCall cmd None ∈ evs)).
Proof.
  assert (forall stdin stdout w' r evs,
            ExecE H cmd stdin stdout w = (w', r) ->
            trace w' = trace w ++ evs ->
            Stdin (store w' cmd) = match stdin with
                                   | Some rd => Some rd
                                   | None => Stdin (store w cmd)
                                   end /\
            Stdout (store w' cmd) = Some (default Discard stdout) /\
            Stderr (store w' cmd) = Some (Buffer (next_buffer w)) /\
            (r = None <-> WaitCall cmd None ∈ evs)) as HE.
  { intros stdin stdout w' r evs Hrun Ht. rewrite ExecE_unfold in Hrun.
    simpl in Hrun.
    destruct (Exec H cmd stdin stdout _ _) as [w1 u] eqn:HX.
    simpl in Hrun. apply Exec_spec in HX as [(HI & HO & HErr & _) Hlog].
    simpl in HI, Hlog. injection Hrun as <- <-.
    split; [done|]. split; [done|]. split; [done|].
    destruct Hlog as [(msg & Ht' & ->)|(pid & e & Ht' & ->)];
      rewrite Ht' in Ht; apply app_inv_head in Ht as <-; simpl.
    - split; [done|]. intros Hin. by apply list_elem_of_singleton in Hin.
    - split.
      + destruct e; [done|]. intros _. right. by left.
      + intros Hin. apply elem_of_cons in Hin as [Hin|Hin]; [done|].
        apply list_elem_of_singleton in Hin. by simplify_eq. }
  split.
  - intros stdin w' r evs Hrun Ht. unfold ExecStdin in Hrun.
    apply (HE stdin None w' r evs Hrun Ht).
  - intros stdout w' r evs Hrun Ht. unfold ExecStdout in Hrun.
    apply (HE None stdout w' r evs Hrun Ht).
Qed.

Lemma X8_input_only_output_only_witness :
  (Stdin (store Demo.runStdin.1 1) = Some (ExtReader 5) /\
   Stdout (store Demo.runStdin.1 1) = Some Discard /\
   Stderr (store Demo.runStdin.1 1) = Some (Buffer 0) /\
   (Demo.runStdin.2 = None <-> WaitCall 1 None ∈ trace Demo.runStdin.1)) /\
  (Stdin (store Demo.runStdout.1 1) = Stdin (store Demo.world 1) /\
   Stdout (store Demo.runStdout.1 1) = Some (ExtWriter 6) /\
   Stderr (store Demo.runStdout.1 1) = Some (Buffer 0) /\
   (Demo.runStdout.2 = None <-> WaitCall 1 None ∈ trace Demo.runStdout.1)).
Proof.
  destruct (X8_input_only_output_only Demo.host 1 Demo.world) as [Hin Hout].
  split.
  - apply (Hin (Some (ExtReader 5)) Demo.runStdin.1 Demo.runStdin.2
             (trace Demo.runStdin.1)); vm_compute; reflexivity.
  - apply (Hout (Some (ExtWriter 6)) Demo.runStdout.1 Demo.runStdout.2
             (trace Demo.runStdout.1)); vm_compute; reflexivity.
Defined.
